(** * auto-changeset: commit-to-package attribution and classification

    A shallow embedding of [scripts/auto-changeset.mjs].

    Strings.  A JavaScript string is represented by the bytes of its UTF-8
    encoding, held in a Rocq [string]; this is also what
    [execSync(..., {encoding: 'utf8'})] decodes and what [fs.writeFileSync]
    stores.  [includes], [startsWith], [split], [join], concatenation and
    [replace] with a string pattern act on the bytes exactly as they act on
    the code units.  [trim] and the regular expression class [\s] know the
    multi-byte encodings of the ECMAScript white space characters.
    [toLowerCase] folds the ASCII letters only: the script never prints a
    lower-cased string, it only tests it against the ASCII prefixes feat,
    fix, refactor, perf, docs and chore, and no character outside ASCII has
    a lower-case image that lets such a test succeed; the [i] flag of the
    regular expressions never equates a character outside ASCII with an
    ASCII one either.  [substring(0, 7)] takes bytes, which are the code
    units of a hexadecimal commit hash.

    Effects.  Every [execSync] call is a read-only git query, modelled by an
    oracle from the command line to its standard output ([None] when the call
    throws).  [getPackages] reads the manifests under [packages/]; its result
    is a datum of the environment.  The file system that [main] writes to is
    a finite map from paths to contents, [fs.writeFileSync] replaces the
    content at a path or throws, leaving the files as they were.  A path is
    kept as it is written, relative to the root of the repository;
    [path.join] would also normalise it.  [process.exit] ends the run with
    its code.  Console output is not modelled. *)

From Stdlib Require Import String Ascii List Bool Arith Lia NArith Permutation.
From stdpp Require Import gmap strings.

Import ListNotations.
Open Scope list_scope.
Open Scope string_scope.

(** ** JavaScript string primitives *)

Module Js.

(** [s.startsWith(p)] *)
Fixpoint startsWith (s p : string) {struct p} : bool :=
  match p with
  | EmptyString => true
  | String b p' =>
      match s with
      | EmptyString => false
      | String a s' => if Ascii.eqb a b then startsWith s' p' else false
      end
  end.

(** [s.includes(sub)] *)
Fixpoint includes (s sub : string) : bool :=
  startsWith s sub ||
  match s with
  | EmptyString => false
  | String _ s' => includes s' sub
  end.

(** One ASCII letter to lower case; every other byte is kept. *)
Definition lowerByte (c : ascii) : ascii :=
  let n := N_of_ascii c in
  if ((65 <=? n) && (n <=? 90))%N then ascii_of_N (n + 32) else c.

(** [s.toLowerCase()], on the ASCII letters. *)
Fixpoint toLowerCase (s : string) : string :=
  match s with
  | EmptyString => EmptyString
  | String c s' => String (lowerByte c) (toLowerCase s')
  end.

(** White space and line terminators of one byte: TAB, LF, VT, FF, CR, SP. *)
Definition ws1 (c : ascii) : bool :=
  let n := N_of_ascii c in
  (((9 <=? n) && (n <=? 13)) || (n =? 32))%N.

(** U+00A0, encoded C2 A0. *)
Definition ws2 (a b : ascii) : bool :=
  ((N_of_ascii a =? 194) && (N_of_ascii b =? 160))%N.

(** The three-byte ones: U+1680, U+2000..U+200A, U+2028, U+2029, U+202F,
    U+205F, U+3000 and U+FEFF. *)
Definition ws3 (a b c : ascii) : bool :=
  let x := N_of_ascii a in
  let y := N_of_ascii b in
  let z := N_of_ascii c in
  (((x =? 225) && (y =? 154) && (z =? 128))
   || ((x =? 226) && (y =? 128)
       && (((128 <=? z) && (z <=? 138)) || (z =? 168) || (z =? 169) || (z =? 175)))
   || ((x =? 226) && (y =? 129) && (z =? 159))
   || ((x =? 227) && (y =? 128) && (z =? 128))
   || ((x =? 239) && (y =? 187) && (z =? 191)))%N.

(** [s.trimStart()]; also what the pattern [\s*] consumes at the head of [s]. *)
Fixpoint trimStart (s : string) : string :=
  match s with
  | EmptyString => s
  | String a r1 =>
      if ws1 a then trimStart r1
      else
        match r1 with
        | EmptyString => s
        | String b r2 =>
            if ws2 a b then trimStart r2
            else
              match r2 with
              | EmptyString => s
              | String c r3 => if ws3 a b c then trimStart r3 else s
              end
        end
  end.

(** A string made of white space only. *)
Definition blank (s : string) : bool :=
  match trimStart s with
  | EmptyString => true
  | String _ _ => false
  end.

(** [s.trimEnd()] *)
Fixpoint trimEnd (s : string) : string :=
  match s with
  | EmptyString => EmptyString
  | String a r => if blank s then EmptyString else String a (trimEnd r)
  end.

(** [s.trim()] *)
Definition trim (s : string) : string := trimEnd (trimStart s).

(** [s.split(sep)] for a separator of one character. *)
Fixpoint split (sep : ascii) (s : string) : list string :=
  match s with
  | EmptyString => [EmptyString]
  | String c r =>
      if Ascii.eqb c sep then EmptyString :: split sep r
      else
        match split sep r with
        | h :: t => String c h :: t
        | [] => [String c EmptyString]
        end
  end.

(** [parts.join(sep)] *)
Fixpoint join (sep : string) (parts : list string) : string :=
  match parts with
  | [] => EmptyString
  | [p] => p
  | p :: rest => p ++ sep ++ join sep rest
  end.

(** [arr.pop()] read as a value: the last element, [undefined] on [[]]. *)
Fixpoint pop (l : list string) : option string :=
  match l with
  | [] => None
  | [x] => Some x
  | _ :: r => pop r
  end.

(** [s.substring(0, n)] *)
Fixpoint substring0 (n : nat) (s : string) : string :=
  match n, s with
  | S n', String c r => String c (substring0 n' r)
  | _, _ => EmptyString
  end.

(** [s.replace(pat, rep)] where [pat] is a string of one character and [rep]
    has no [$]: the first occurrence only. *)
Fixpoint replaceFirst (pat : ascii) (rep : string) (s : string) : string :=
  match s with
  | EmptyString => EmptyString
  | String c r =>
      if Ascii.eqb c pat then rep ++ r else String c (replaceFirst pat rep r)
  end.

(** The rest of [s] after [n] bytes. *)
Fixpoint drop (n : nat) (s : string) : string :=
  match n, s with
  | O, _ => s
  | S n', String _ r => drop n' r
  | S _, EmptyString => EmptyString
  end.

(** [s.replace(/^<tag>\s*/i, '')] for an ASCII, lower-case [tag]: when [s]
    begins with [tag] in any letter case, the tag and the white space after
    it are cut; otherwise [s] is returned as it is. *)
Definition stripTag (tag : string) (s : string) : string :=
  if startsWith (toLowerCase s) tag
  then trimStart (drop (String.length tag) s)
  else s.

(** Truthiness of a string: only the empty string is falsy. *)
Definition truthy (s : string) : bool :=
  match s with
  | EmptyString => false
  | String _ _ => true
  end.

(** [x || null] for a possibly missing string. *)
Definition orNull (x : option string) : option string :=
  match x with
  | Some s => if truthy s then Some s else None
  | None => None
  end.

End Js.

(** ** Data model *)

(** What [getPackages] returns for one directory under [packages/]. *)
Record Package := mkPackage {
  name : string;
  path : string;
  directory : string
}.

(** One element of a package's commit list. *)
Record CommitInfo := mkCommit {
  hash : string;
  message : string;
  files : list string
}.

Inductive VersionType := major | minor | patch.

Record Categories := mkCategories {
  features : list string;
  bugFixes : list string;
  refactoring : list string;
  performance : list string;
  documentation : list string;
  chores : list string;
  others : list string
}.

(** ** The object [packageCommits]

    A JavaScript object used as a map from package names to arrays.  Own
    properties are kept in insertion order.  Assigning to the key
    [__proto__] installs the array as the prototype instead of creating an
    own property, and reading that key gives the prototype back.  Own keys
    are enumerated with the array indices first, in ascending order, then the
    other keys in insertion order. *)

Module Obj.

Record t := mk {
  proto : option (list CommitInfo);
  own : list (string * list CommitInfo)
}.

Definition empty : t := mk None [].

Definition protoKey : string := "__proto__".

Fixpoint lookup (k : string) (l : list (string * list CommitInfo))
  : option (list CommitInfo) :=
  match l with
  | [] => None
  | (k', v) :: r => if String.eqb k k' then Some v else lookup k r
  end.

(** Replace the value of an existing key in place, or append a new key. *)
Fixpoint assign (k : string) (v : list CommitInfo)
  (l : list (string * list CommitInfo)) : list (string * list CommitInfo) :=
  match l with
  | [] => [(k, v)]
  | (k', v') :: r =>
      if String.eqb k k' then (k', v) :: r else (k', v') :: assign k v r
  end.

Fixpoint remove (k : string) (l : list (string * list CommitInfo))
  : list (string * list CommitInfo) :=
  match l with
  | [] => []
  | (k', v') :: r =>
      if String.eqb k k' then remove k r else (k', v') :: remove k r
  end.

(** [o[k] = v] *)
Definition set (k : string) (v : list CommitInfo) (o : t) : t :=
  if String.eqb k protoKey then mk (Some v) (own o)
  else mk (proto o) (assign k v (own o)).

(** [o[k]], for a key that was assigned before. *)
Definition get (k : string) (o : t) : option (list CommitInfo) :=
  if String.eqb k protoKey then proto o else lookup k (own o).

(** [o[k].push(x)]: the array stored under [k] grows in place.  The first
    loop of [categorizeCommitsByPackage] assigns every key that is pushed to
    later, so the array is always there (lemma [push_finds_array] below);
    the second branch only makes the function total. *)
Definition push (k : string) (x : CommitInfo) (o : t) : t :=
  match get k o with
  | Some arr => set k (arr ++ [x]) o
  | None => o
  end.

(** [delete o[k]] *)
Definition delete (k : string) (o : t) : t := mk (proto o) (remove k (own o)).

Definition digit (c : ascii) : option N :=
  let n := N_of_ascii c in
  if ((48 <=? n) && (n <=? 57))%N then Some (n - 48)%N else None.

Fixpoint digits (acc : N) (s : string) : option N :=
  match s with
  | EmptyString => Some acc
  | String c r =>
      match digit c with
      | Some d => digits (acc * 10 + d)%N r
      | None => None
      end
  end.

(** A key that is an array index: a canonical decimal numeral below 2^32 - 1. *)
Definition arrayIndex (k : string) : option N :=
  match k with
  | EmptyString => None
  | String c r =>
      if Ascii.eqb c "0"%char
      then match r with EmptyString => Some 0%N | String _ _ => None end
      else
        match digits 0 k with
        | Some n => if (n <? 4294967295)%N then Some n else None
        | None => None
        end
  end.

Fixpoint insertIndex (n : N) (k : string) (l : list (N * string))
  : list (N * string) :=
  match l with
  | [] => [(n, k)]
  | (m, k') :: r =>
      if (n <=? m)%N then (n, k) :: l else (m, k') :: insertIndex n k r
  end.

Fixpoint indexKeys (ks : list string) : list (N * string) :=
  match ks with
  | [] => []
  | k :: r =>
      match arrayIndex k with
      | Some n => insertIndex n k (indexKeys r)
      | None => indexKeys r
      end
  end.

Definition isName (k : string) : bool :=
  match arrayIndex k with Some _ => false | None => true end.

(** [Object.keys(o)] *)
Definition keys (o : t) : list string :=
  let ks := map fst (own o) in
  map snd (indexKeys ks) ++ List.filter isName ks.

(** [Object.entries(o)] *)
Definition entries (o : t) : list (string * list CommitInfo) :=
  flat_map (fun k => match lookup k (own o) with
                     | Some v => [(k, v)]
                     | None => []
                     end) (keys o).

End Obj.

(** ** The environment of a run *)

Record World := mkWorld {
  (** [execSync(cmd, ...)]: the standard output, or [None] when it throws. *)
  execSync : string -> option string;
  (** The result of [getPackages()], the scan of [packages/*]. *)
  getPackages : list Package;
  (** Whether [fs.writeFileSync] succeeds on a path. *)
  writable : string -> bool
}.

(** ** The script *)

Import Js.

(** The double quote character, for the command lines and the front matter. *)
Definition dq : string := String (ascii_of_nat 34) EmptyString.

(** The line feed character. *)
Definition nl : string := String (ascii_of_nat 10) EmptyString.

Definition LF : ascii := ascii_of_nat 10.

(** The lines of a query's output:
    [out.trim().split('\n').filter(line => line.length > 0)]. *)
Definition outputLines (out : string) : list string :=
  List.filter truthy (split LF (trim out)).

(** [getCommitsInRange(fromRef, toRef)] *)
Definition getCommitsInRange (w : World) (fromRef toRef : string) : list string :=
  let range := fromRef ++ ".." ++ toRef in
  match execSync w ("git log " ++ range ++ " --oneline --no-merges") with
  | Some out =>
      let commits := outputLines out in
      if (List.length commits =? 0)%nat then [] else commits
  | None => []
  end.

(** [getChangedFilesInCommit(commitHash)] *)
Definition getChangedFilesInCommit (w : World) (commitHash : string) : list string :=
  match execSync w ("git show --name-only --format=" ++ dq ++ dq ++ " " ++ commitHash) with
  | Some out => outputLines out
  | None => []
  end.

(** [const [commitHash, ...messageParts] = commitLine.split(' ')] and
    [messageParts.join(' ')]. *)
Definition parseCommitLine (commitLine : string) : string * string :=
  match split " "%char commitLine with
  | commitHash :: messageParts => (commitHash, join " " messageParts)
  | [] => (EmptyString, EmptyString)
  end.

(** [file.startsWith(pkg.path + '/')] *)
Definition inPackage (pkg : Package) (file : string) : bool :=
  startsWith file (path pkg ++ "/").

(** The body of [packages.forEach] inside the loop over the commits. *)
Definition recordCommit (commitHash msg : string) (changedFiles : list string)
  (packageCommits : Obj.t) (pkg : Package) : Obj.t :=
  let hasPackageChanges := existsb (inPackage pkg) changedFiles in
  if hasPackageChanges
  then Obj.push (name pkg)
         (mkCommit commitHash msg (List.filter (inPackage pkg) changedFiles))
         packageCommits
  else packageCommits.

(** The body of [commits.forEach]. *)
Definition attributeCommit (w : World) (packages : list Package)
  (packageCommits : Obj.t) (commitLine : string) : Obj.t :=
  let '(commitHash, msg) := parseCommitLine commitLine in
  let changedFiles := getChangedFilesInCommit w commitHash in
  fold_left (recordCommit commitHash msg changedFiles) packages packageCommits.

(** The last loop: drop the packages whose array stayed empty. *)
Definition dropEmpty (packageCommits : Obj.t) (packageName : string) : Obj.t :=
  match Obj.get packageName packageCommits with
  | Some arr =>
      if (List.length arr =? 0)%nat then Obj.delete packageName packageCommits
      else packageCommits
  | None => packageCommits
  end.

(** [categorizeCommitsByPackage(commits, packages)] *)
Definition categorizeCommitsByPackage (w : World) (commits : list string)
  (packages : list Package) : Obj.t :=
  let initial :=
    fold_left (fun o pkg => Obj.set (name pkg) [] o) packages Obj.empty in
  let filled := fold_left (attributeCommit w packages) commits initial in
  fold_left dropEmpty (Obj.keys filled) filled.

(** [determineVersionType(commits)] *)
Definition determineVersionType (commits : list CommitInfo) : VersionType :=
  let messages := map message commits in
  let hasBreakingChange :=
    existsb (fun msg => includes msg "BREAKING CHANGE" || includes msg "!:")
      messages in
  if hasBreakingChange then major
  else
    let hasFeat :=
      existsb (fun msg => startsWith (toLowerCase (trim msg)) "feat") messages in
    if hasFeat then minor
    else
      let hasFix :=
        existsb (fun msg => startsWith (toLowerCase (trim msg)) "fix") messages in
      if hasFix then patch
      else patch.

Definition noCategories : Categories := mkCategories [] [] [] [] [] [] [].

(** The body of [commits.forEach] in [categorizeCommits]. *)
Definition categorizeCommit (categories : Categories) (commit : CommitInfo)
  : Categories :=
  let msg := trim (message commit) in
  let lowerMsg := toLowerCase msg in
  let hash7 := substring0 7 (hash commit) in
  let item (text : string) := text ++ " (" ++ hash7 ++ ")" in
  let '(mkCategories fe bu re pe doc ch ot) := categories in
  if startsWith lowerMsg "feat" then
    mkCategories (fe ++ [item (stripTag "feat:" msg)]) bu re pe doc ch ot
  else if startsWith lowerMsg "fix" then
    mkCategories fe (bu ++ [item (stripTag "fix:" msg)]) re pe doc ch ot
  else if startsWith lowerMsg "refactor" then
    mkCategories fe bu (re ++ [item (stripTag "refactor:" msg)]) pe doc ch ot
  else if startsWith lowerMsg "perf" then
    mkCategories fe bu re (pe ++ [item (stripTag "perf:" msg)]) doc ch ot
  else if startsWith lowerMsg "docs" then
    mkCategories fe bu re pe (doc ++ [item (stripTag "docs:" msg)]) ch ot
  else if startsWith lowerMsg "chore" then
    mkCategories fe bu re pe doc (ch ++ [item (stripTag "chore:" msg)]) ot
  else
    mkCategories fe bu re pe doc ch (ot ++ [item msg]).

(** [categorizeCommits(commits)] *)
Definition categorizeCommits (commits : list CommitInfo) : Categories :=
  fold_left categorizeCommit commits noCategories.

(** One section of the summary: the heading and one bullet per item, or
    nothing when the category is empty. *)
Definition summarySection (heading : string) (items : list string) : string :=
  if (0 <? List.length items)%nat
  then fold_left (fun summary it => summary ++ "    -   " ++ it ++ nl) items
         ("-   **" ++ heading ++ "**" ++ nl)
  else EmptyString.

(** [generateKoreanSummary(categories)] *)
Definition generateKoreanSummary (categories : Categories) : string :=
  let summary := EmptyString in
  let summary := summary ++ summarySection "새로운 기능" (features categories) in
  let summary := summary ++ summarySection "버그 수정" (bugFixes categories) in
  let summary := summary ++ summarySection "리팩토링" (refactoring categories) in
  let summary := summary ++ summarySection "성능 개선" (performance categories) in
  let summary := summary ++ summarySection "문서" (documentation categories) in
  let summary := summary ++ summarySection "기타" (chores categories) in
  let summary := summary ++ summarySection "기타 변경사항" (others categories) in
  trim summary.

Definition versionName (v : VersionType) : string :=
  match v with
  | major => "major"
  | minor => "minor"
  | patch => "patch"
  end.

(** [generateChangeset(packageName, commits, prUrl)] *)
Definition generateChangeset (packageName : string) (commits : list CommitInfo)
  (prUrl : option string) : string :=
  let versionType := determineVersionType commits in
  let categories := categorizeCommits commits in
  let summary := generateKoreanSummary categories in
  let changeset :=
    "---" ++ nl ++ dq ++ packageName ++ dq ++ ": " ++ versionName versionType ++ nl
    ++ "---" ++ nl ++ nl ++ summary ++ nl in
  match orNull prUrl with
  | Some url =>
      let prNumber := default EmptyString (pop (split "/"%char url)) in
      changeset ++ nl ++ "**관련 PR**: [#" ++ prNumber ++ "](" ++ url ++ ")" ++ nl
  | None => changeset
  end.

(** How a run ends: [main] returns, or [process.exit(code)] is called. *)
Inductive Status := Returned | Exited (code : nat).

(** [/^https?:\/\//i.test(arg)] *)
Definition isUrl (arg : string) : bool :=
  let lower := toLowerCase arg in
  startsWith lower "http://" || startsWith lower "https://".

(** [getDefaultBaseRef(branch)], the function local to [main]. *)
Definition candidates : list string :=
  ["origin/main"; "main"; "origin/master"; "master"].

Fixpoint firstVerified (w : World) (cs : list string) : option string :=
  match cs with
  | [] => None
  | c :: rest =>
      match execSync w ("git rev-parse --verify " ++ c) with
      | Some _ => Some c
      | None => firstVerified w rest
      end
  end.

Definition probeCandidates (w : World) : string :=
  match firstVerified w candidates with
  | Some c => c
  | None => "origin/main"
  end.

Definition getDefaultBaseRef (w : World) (branch : string) : string :=
  match execSync w ("git rev-parse --abbrev-ref --symbolic-full-name "
                    ++ branch ++ "@{upstream}") with
  | Some out =>
      let upstream := trim out in
      if truthy upstream then upstream else probeCandidates w
  | None => probeCandidates w
  end.

(** [targetArg || getDefaultBaseRef(sourceBranch)] *)
Definition resolveTarget (w : World) (targetArg : option string)
  (sourceBranch : string) : string :=
  match orNull targetArg with
  | Some t => t
  | None => getDefaultBaseRef w sourceBranch
  end.

(** The [try]/[catch] around [git merge-base]. *)
Definition resolveMergeBase (w : World) (targetBranch sourceBranch : string)
  : string :=
  match execSync w ("git merge-base " ++ targetBranch ++ " " ++ sourceBranch) with
  | Some out => trim out
  | None => targetBranch
  end.

(** [packageName.replace('@', '').replace('/', '-')] *)
Definition safePackageName (packageName : string) : string :=
  replaceFirst "/"%char "-" (replaceFirst "@"%char EmptyString packageName).

Definition changesetFilename (prNumber packageName : string) : string :=
  "auto-pr-" ++ prNumber ++ "-" ++ safePackageName packageName ++ ".md".

(** [path.join(__dirname, '..', '.changeset', filename)], relative to the
    root of the repository and without the normalisation of the result. *)
Definition changesetPath (filename : string) : string :=
  ".changeset/" ++ filename.

(** The body of the loop over [Object.entries(packageCommits)]: render, then
    write; a write that throws is caught and leaves the files as they were. *)
Definition writeChangeset (w : World) (prUrl : option string) (prNumber : string)
  (fs : gmap string string) (entry : string * list CommitInfo)
  : gmap string string :=
  let '(packageName, commits) := entry in
  let changeset := generateChangeset packageName commits prUrl in
  let target := changesetPath (changesetFilename prNumber packageName) in
  if writable w target then <[target := changeset]> fs else fs.

(** The arguments of a run, as [main] reads them off [process.argv.slice(2)]. *)
Record Args := mkArgs {
  prUrl : option string;
  sourceBranch : option string;
  targetArg : option string;
  prNumber : option string
}.

Definition parseArgs (args : list string) : Args :=
  let prUrl := orNull (List.find isUrl args) in
  let nonUrlArgs := List.filter (fun arg => negb (isUrl arg)) args in
  let sourceBranch := orNull (nth_error nonUrlArgs 0) in
  let targetArg := orNull (nth_error nonUrlArgs 1) in
  let prNumber :=
    match orNull (nth_error nonUrlArgs 2) with
    | Some n => Some n
    | None =>
        match prUrl with
        | Some url => pop (split "/"%char url)
        | None => None
        end
    end in
  mkArgs prUrl sourceBranch targetArg prNumber.

(** The part of [main] after the comparison range is resolved: discover the
    packages, load the commits, attribute them and write one file per entry. *)
Definition analyse (w : World) (prUrl : option string) (prNumber : string)
  (mergeBase sourceBranch : string) (fs : gmap string string)
  : Status * gmap string string :=
  let packages := getPackages w in
  if (List.length packages =? 0)%nat then (Exited 1, fs)
  else
    let commits := getCommitsInRange w mergeBase sourceBranch in
    if (List.length commits =? 0)%nat then (Returned, fs)
    else
      let packageCommits := categorizeCommitsByPackage w commits packages in
      if (List.length (Obj.keys packageCommits) =? 0)%nat then (Returned, fs)
      else
        (Returned,
         fold_left (writeChangeset w prUrl prNumber)
           (Obj.entries packageCommits) fs).

(** [main()], run on the arguments [args] (that is [process.argv.slice(2)])
    and the files [fs]. *)
Definition main (w : World) (args : list string) (fs : gmap string string)
  : Status * gmap string string :=
  let a := parseArgs args in
  match sourceBranch a with
  | None => (Exited 1, fs)
  | Some sourceBranch =>
      match orNull (prNumber a) with
      | None => (Exited 1, fs)
      | Some prNumber =>
          let targetBranch := resolveTarget w (targetArg a) sourceBranch in
          let mergeBase := resolveMergeBase w targetBranch sourceBranch in
          analyse w (prUrl a) prNumber mergeBase sourceBranch fs
      end
  end.

(** ** Reference definitions

    The version bump as the documentation words it, stated with plain
    propositions on the commit subjects. *)

Definition contains (s sub : string) : Prop :=
  exists pre post, s = pre ++ sub ++ post.

Definition beginsWith (s p : string) : Prop :=
  exists rest, s = p ++ rest.

Definition breaking (subject : string) : Prop :=
  contains subject "BREAKING CHANGE" \/ contains subject "!:".

Definition announces (tag subject : string) : Prop :=
  beginsWith (toLowerCase (trim subject)) tag.

Definition some (P : string -> Prop) (subjects : list string) : Prop :=
  exists s, In s subjects /\ P s.

Inductive bumpRule (subjects : list string) : VersionType -> Prop :=
| rule_major :
    some breaking subjects -> bumpRule subjects major
| rule_minor :
    ~ some breaking subjects -> some (announces "feat") subjects ->
    bumpRule subjects minor
| rule_patch_fix :
    ~ some breaking subjects -> ~ some (announces "feat") subjects ->
    some (announces "fix") subjects -> bumpRule subjects patch
| rule_patch_default :
    ~ some breaking subjects -> ~ some (announces "feat") subjects ->
    ~ some (announces "fix") subjects -> bumpRule subjects patch.

(** major > minor > patch *)
Definition rank (v : VersionType) : nat :=
  match v with
  | major => 2
  | minor => 1
  | patch => 0
  end.

Definition atLeast (low v : VersionType) : Prop := (rank low <= rank v)%nat.

(** The number of occurrences of a character. *)
Fixpoint count (c : ascii) (s : string) : nat :=
  match s with
  | EmptyString => 0
  | String a r => (if Ascii.eqb a c then 1 else 0) + count c r
  end.

(** A reference that [git rev-parse --verify] accepts. *)
Definition verifies (w : World) (ref : string) : Prop :=
  execSync w ("git rev-parse --verify " ++ ref) <> None.

(** The upstream of a branch is configured and reads [u]. *)
Definition upstreamIs (w : World) (branch u : string) : Prop :=
  exists out,
    execSync w ("git rev-parse --abbrev-ref --symbolic-full-name "
                ++ branch ++ "@{upstream}") = Some out
    /\ trim out = u /\ u <> EmptyString.

Definition noUpstream (w : World) (branch : string) : Prop :=
  forall u, ~ upstreamIs w branch u.

(** A repository in which no upstream is configured and, of the candidates,
    only [main] exists; the merge base of [main] and [feature/x] cannot be
    computed, and two commits are ahead of [main]. *)
Definition degradedWorld : World :=
  mkWorld
    (fun cmd =>
       if String.eqb cmd "git rev-parse --verify main" then Some EmptyString
       else if String.eqb cmd "git log main..feature/x --oneline --no-merges"
       then Some ("3f2a9c1 feat: add button" ++ nl
                  ++ "b7e41d08a5 fix!: null deref" ++ nl)
       else if String.eqb cmd
                 ("git show --name-only --format=" ++ dq ++ dq ++ " 3f2a9c1")
       then Some ("packages/ui/src/Button.ts" ++ nl)
       else None)
    [mkPackage "core" "packages/core" "core"; mkPackage "ui" "packages/ui" "ui"]
    (fun _ => true).

(** The changed files of the commit a line of [git log] stands for. *)
Definition changedFilesOf (w : World) (commitLine : string) : list string :=
  getChangedFilesInCommit w (fst (parseCommitLine commitLine)).

(** The entry that one package gets for one commit line, if it gets one. *)
Definition recorded (w : World) (pkg : Package) (commitLine : string)
  : option CommitInfo :=
  if existsb (inPackage pkg) (changedFilesOf w commitLine)
  then Some (mkCommit (fst (parseCommitLine commitLine))
               (snd (parseCommitLine commitLine))
               (List.filter (inPackage pkg) (changedFilesOf w commitLine)))
  else None.

Definition entryList (e : option CommitInfo) : list CommitInfo :=
  match e with
  | Some x => [x]
  | None => []
  end.

(** The entries of one package over a list of commit lines: one per line at
    most, in the order of the lines. *)
Definition attributed (w : World) (pkg : Package) (commits : list string)
  : list CommitInfo :=
  flat_map (fun commitLine => entryList (recorded w pkg commitLine)) commits.

(** The entries one commit line adds under a name, over all the packages that
    carry the name. *)
Definition pushedUnder (w : World) (packages : list Package) (n : string)
  (commitLine : string) : list CommitInfo :=
  flat_map (fun pkg => if String.eqb n (name pkg)
                       then entryList (recorded w pkg commitLine)
                       else []) packages.

Definition named (n : string) (packages : list Package) : bool :=
  existsb (fun pkg => String.eqb n (name pkg)) packages.

(** No own property is called [__proto__]. *)
Definition plain (o : Obj.t) : Prop :=
  Obj.lookup Obj.protoKey (Obj.own o) = None.

(** The scenario of the documentation: packages core and ui, a feature
    commit in ui and a breaking fix in core on the branch [feature]; a third
    commit, not on the branch, touches nothing under a package root. *)
Definition scenarioWorld : World :=
  mkWorld
    (fun cmd =>
       if String.eqb cmd "git merge-base origin/main feature"
       then Some ("4e5d6c7" ++ nl)
       else if String.eqb cmd "git log 4e5d6c7..feature --oneline --no-merges"
       then Some ("3f2a9c1 feat: add button" ++ nl
                  ++ "b7e41d08a5 fix!: null deref" ++ nl)
       else if String.eqb cmd
                 ("git show --name-only --format=" ++ dq ++ dq ++ " 3f2a9c1")
       then Some ("packages/ui/src/Button.ts" ++ nl)
       else if String.eqb cmd
                 ("git show --name-only --format=" ++ dq ++ dq ++ " b7e41d08a5")
       then Some ("packages/core/src/x.ts" ++ nl)
       else if String.eqb cmd
                 ("git show --name-only --format=" ++ dq ++ dq ++ " c0ffee1")
       then Some ("README.md" ++ nl ++ ".github/workflows/ci.yml" ++ nl
                  ++ "packages/uikit/notes.md" ++ nl)
       else None)
    [mkPackage "core" "packages/core" "core"; mkPackage "ui" "packages/ui" "ui"]
    (fun _ => true).

Definition corePackage : Package := mkPackage "core" "packages/core" "core".
Definition uiPackage : Package := mkPackage "ui" "packages/ui" "ui".

(** The document that the writes for a list of entries leave at a path: the
    rendering of the last entry whose file is that path and can be written. *)
Fixpoint lastWritten (w : World) (prUrl : option string) (prNumber : string)
  (entries : list (string * list CommitInfo)) (target : string)
  : option string :=
  match entries with
  | [] => None
  | (packageName, commits) :: rest =>
      match lastWritten w prUrl prNumber rest target with
      | Some doc => Some doc
      | None =>
          let file := changesetPath (changesetFilename prNumber packageName) in
          if writable w file && String.eqb file target
          then Some (generateChangeset packageName commits prUrl)
          else None
      end
  end.

(** Every package has its array: what the first loop of
    [categorizeCommitsByPackage] establishes and the second relies on. *)
Definition ready (packages : list Package) (o : Obj.t) : Prop :=
  forall pkg, In pkg packages -> Obj.get (name pkg) o <> None.

(** U+00A0 and U+3000 in UTF-8. *)
Definition nbsp : string :=
  String (ascii_of_nat 194) (String (ascii_of_nat 160) EmptyString).

Definition ideographicSpace : string :=
  String (ascii_of_nat 227)
    (String (ascii_of_nat 128) (String (ascii_of_nat 128) EmptyString)).

(** ** Definitions for the further properties *)

(** The greater of two bumps. *)
Definition maxBump (a b : VersionType) : VersionType :=
  match a, b with
  | major, _ | _, major => major
  | minor, _ | _, minor => minor
  | patch, patch => patch
  end.

(** The prefix test of [categorizeCommits] and [determineVersionType]. *)
Definition has (tag : string) (commit : CommitInfo) : bool :=
  startsWith (toLowerCase (trim (message commit))) tag.

(** The breaking-change test of [determineVersionType]. *)
Definition isBreaking (commit : CommitInfo) : bool :=
  includes (message commit) "BREAKING CHANGE" || includes (message commit) "!:".

(** The text of an item: the trimmed subject, with or without a tag cut,
    and the short hash between parentheses. *)
Definition itemOf (tag : option string) (commit : CommitInfo) : string :=
  match tag with
  | Some t => stripTag t (trim (message commit))
  | None => trim (message commit)
  end ++ " (" ++ substring0 7 (hash commit) ++ ")".

(** Which commits each category takes: the first test that succeeds, in the
    order feat, fix, refactor, perf, docs, chore. *)
Definition takesFix (c : CommitInfo) : bool :=
  negb (has "feat" c) && has "fix" c.

Definition takesRefactor (c : CommitInfo) : bool :=
  negb (has "feat" c) && negb (has "fix" c) && has "refactor" c.

Definition takesPerf (c : CommitInfo) : bool :=
  negb (has "feat" c) && negb (has "fix" c) && negb (has "refactor" c)
  && has "perf" c.

Definition takesDocs (c : CommitInfo) : bool :=
  negb (has "feat" c) && negb (has "fix" c) && negb (has "refactor" c)
  && negb (has "perf" c) && has "docs" c.

Definition takesChore (c : CommitInfo) : bool :=
  negb (has "feat" c) && negb (has "fix" c) && negb (has "refactor" c)
  && negb (has "perf" c) && negb (has "docs" c) && has "chore" c.

Definition takesOther (c : CommitInfo) : bool :=
  negb (has "feat" c) && negb (has "fix" c) && negb (has "refactor" c)
  && negb (has "perf" c) && negb (has "docs" c) && negb (has "chore" c).

(** The number of items over the seven categories. *)
Definition itemCount (c : Categories) : nat :=
  (List.length (features c) + List.length (bugFixes c)
   + List.length (refactoring c) + List.length (performance c)
   + List.length (documentation c) + List.length (chores c)
   + List.length (others c))%nat.

(** A summary under construction: nothing yet, or text that opens with the
    bullet of a heading. *)
Definition headed (s : string) : Prop :=
  s = EmptyString \/ beginsWith s "-   **".

(** The same repository with another answer to which paths can be written. *)
Definition withWritable (w : World) (canWrite : string -> bool) : World :=
  mkWorld (execSync w) (getPackages w) canWrite.

(** ** The scan of the packages

    [getPackages()] of the script.  The disk is an oracle: whether a path
    exists, the entries of a directory, and the [name] read from the manifest
    at a path (a manifest that cannot be read or parsed makes the script
    fail; the oracle has no such case).  Paths are relative to the root of
    the repository, as in [changesetPath]. *)

Module Registry.

Record Disk := mkDisk {
  existsSync : string -> bool;
  readdirSync : string -> list string;
  manifestName : string -> string
}.

Definition packagesDir : string := "packages".

(** [path.join(packagesDir, dir, 'package.json')] *)
Definition packageJsonPath (dir : string) : string :=
  packagesDir ++ "/" ++ dir ++ "/package.json".

Definition getPackages (d : Disk) : list Package :=
  if negb (existsSync d packagesDir) then []
  else
    map (fun dir =>
           mkPackage (manifestName d (packageJsonPath dir))
             ("packages/" ++ dir) dir)
      (List.filter (fun dir => existsSync d (packageJsonPath dir))
         (readdirSync d packagesDir)).

End Registry.

(** A disk with three directories under [packages/], one without manifest. *)
Definition scenarioDisk : Registry.Disk :=
  Registry.mkDisk
    (fun p => String.eqb p "packages"
              || String.eqb p "packages/ui/package.json"
              || String.eqb p "packages/uikit/package.json")
    (fun p => if String.eqb p "packages" then ["docs"; "ui"; "uikit"] else [])
    (fun p => if String.eqb p "packages/ui/package.json" then "@org/ui"
              else "@org/uikit").

(** Two packages that carry the same name. *)
Definition twinPackages : list Package :=
  [mkPackage "app" "packages/ui" "ui"; mkPackage "app" "packages/core" "core"].

(** * Properties *)

(** ** Strings *)

Lemma append_nil (b : string) : EmptyString ++ b = b.
Proof. reflexivity. Qed.

Lemma append_cons (x : ascii) (a b : string) :
  String x a ++ b = String x (a ++ b).
Proof. reflexivity. Qed.

Ltac app_norm := rewrite ?append_cons, ?append_nil in *.

Lemma append_assoc (a b c : string) : (a ++ b) ++ c = a ++ (b ++ c).
Proof. induction a as [|x a IH]; app_norm; [reflexivity | now rewrite IH]. Qed.

Lemma append_empty_r (a : string) : a ++ EmptyString = a.
Proof. induction a as [|x a IH]; app_norm; [reflexivity | now rewrite IH]. Qed.

Lemma startsWith_spec (s p : string) :
  startsWith s p = true <-> beginsWith s p.
Proof.
  unfold beginsWith. revert s.
  induction p as [|b p IH]; intros s; simpl.
  - split; [intros _; now exists s | reflexivity].
  - destruct s as [|a s].
    + split; [discriminate | intros [rest H]; discriminate].
    + destruct (Ascii.eqb_spec a b) as [->|Hne].
      * rewrite IH. split; intros [rest H]; exists rest; app_norm; congruence.
      * split; [discriminate | intros [rest H]; app_norm; congruence].
Qed.

Lemma includes_spec (s sub : string) :
  includes s sub = true <-> contains s sub.
Proof.
  unfold contains.
  induction s as [|a s IH]; simpl.
  - rewrite orb_false_r, startsWith_spec. split.
    + intros [rest H]. exists EmptyString, rest. exact H.
    + intros [pre [post H]]. destruct pre; [now exists post | discriminate].
  - rewrite orb_true_iff, startsWith_spec, IH. split.
    + intros [[rest H] | [pre [post H]]].
      * exists EmptyString, rest. exact H.
      * exists (String a pre), post. app_norm. now rewrite H.
    + intros [pre [post H]]. destruct pre as [|x pre]; app_norm.
      * left. now exists post.
      * right. exists pre, post. congruence.
Qed.

Example trim_unicode :
  trim (nbsp ++ " feat: x" ++ nl ++ ideographicSpace) = "feat: x".
Proof. reflexivity. Qed.

Example split_trailing_slash : split "/" "a/b/" = ["a"; "b"; EmptyString].
Proof. reflexivity. Qed.

Example stripTag_any_case : stripTag "feat:" ("FEAT:" ++ nbsp ++ " add x") = "add x".
Proof. reflexivity. Qed.

Example stripTag_no_match : stripTag "fix:" "fix!: null deref" = "fix!: null deref".
Proof. reflexivity. Qed.

Example isUrl_any_case :
  isUrl "HTTPS://github.com/o/r/pull/1" = true /\ isUrl "ftp://x" = false.
Proof. split; reflexivity. Qed.

Example keys_order :
  Obj.keys (Obj.mk None [("b", []); ("10", []); ("9", []); ("a", []); ("01", [])])
  = ["9"; "10"; "b"; "a"; "01"].
Proof. reflexivity. Qed.

Example proto_is_no_own_key :
  Obj.keys (Obj.set "__proto__" [] (Obj.set "core" [] Obj.empty)) = ["core"].
Proof. reflexivity. Qed.

(** ** The version bump *)

Lemma existsb_some (f : string -> bool) (P : string -> Prop) (l : list string) :
  (forall s, f s = true <-> P s) ->
  existsb f l = true <-> some P l.
Proof.
  intros Hf. unfold some. rewrite existsb_exists.
  split; intros [s [Hin Hs]]; exists s; split; auto; now apply Hf.
Qed.

Lemma breaking_test (msg : string) :
  includes msg "BREAKING CHANGE" || includes msg "!:" = true <-> breaking msg.
Proof. unfold breaking. now rewrite orb_true_iff, !includes_spec. Qed.

Lemma announces_test (tag msg : string) :
  startsWith (toLowerCase (trim msg)) tag = true <-> announces tag msg.
Proof. apply startsWith_spec. Qed.

Lemma determineVersionType_rule (commits : list CommitInfo) :
  bumpRule (map message commits) (determineVersionType commits).
Proof.
  unfold determineVersionType.
  pose proof (existsb_some _ _ (map message commits) breaking_test) as Hb.
  pose proof (existsb_some _ _ (map message commits) (announces_test "feat")) as Hf.
  pose proof (existsb_some _ _ (map message commits) (announces_test "fix")) as Hx.
  destruct (existsb _ (map message commits)) eqn:Eb in Hb |- *.
  { apply rule_major. now apply Hb. }
  assert (~ some breaking (map message commits)) as Nb
    by (intros H; apply Hb in H; discriminate).
  destruct (existsb _ (map message commits)) eqn:Ef in Hf |- *.
  { apply rule_minor; [exact Nb | now apply Hf]. }
  assert (~ some (announces "feat") (map message commits)) as Nf
    by (intros H; apply Hf in H; discriminate).
  destruct (existsb _ (map message commits)) eqn:Ex in Hx |- *.
  - apply rule_patch_fix; [exact Nb | exact Nf | now apply Hx].
  - apply rule_patch_default; [exact Nb | exact Nf |].
    intros H; apply Hx in H; discriminate.
Qed.

Lemma bumpRule_functional (subjects : list string) (a b : VersionType) :
  bumpRule subjects a -> bumpRule subjects b -> a = b.
Proof. intros Ha Hb. destruct Ha, Hb; (reflexivity || contradiction). Qed.

(** C1. For a non-empty list of commits attributed to a package, the bump
    computed by [determineVersionType] is the one the reference rule gives:
    major when some subject contains BREAKING CHANGE or the two characters
    "!:", otherwise minor when some trimmed, lower-cased subject starts with
    feat, otherwise patch, with or without a subject starting with fix.  The
    rule gives no other value, and the result is at least patch. *)
Theorem determineVersionType_reference (commits : list CommitInfo) :
  commits <> [] ->
  bumpRule (map message commits) (determineVersionType commits)
  /\ (forall b, bumpRule (map message commits) b ->
                b = determineVersionType commits)
  /\ atLeast patch (determineVersionType commits).
Proof.
  intros _. split; [apply determineVersionType_rule | split].
  - intros b Hb.
    exact (bumpRule_functional _ _ _ Hb (determineVersionType_rule commits)).
  - unfold atLeast. simpl. lia.
Qed.

Lemma determineVersionType_reference_witness :
  [mkCommit "3f2a9c1" "fix: keep a!:b flag" ["packages/core/a.ts"]] <> []
  /\ determineVersionType
       [mkCommit "3f2a9c1" "fix: keep a!:b flag" ["packages/core/a.ts"]] = major.
Proof.
  split; [discriminate |].
  destruct (determineVersionType_reference
              [mkCommit "3f2a9c1" "fix: keep a!:b flag" ["packages/core/a.ts"]])
    as [_ [Huniq _]]; [discriminate |].
  symmetry. apply Huniq. apply rule_major.
  exists "fix: keep a!:b flag". split; [now left |].
  right. exists "fix: keep a", "b flag". reflexivity.
Defined.

(** ** The name of the output file *)

Lemma count_append (c : ascii) (a b : string) :
  count c (a ++ b) = (count c a + count c b)%nat.
Proof.
  induction a as [|x a IH]; app_norm; simpl; [reflexivity | rewrite IH; lia].
Qed.

Lemma count_replaceFirst (c d : ascii) (rep s : string) :
  count d (replaceFirst c rep s) =
  if (0 <? count c s)%nat
  then (count d s + count d rep - (if Ascii.eqb c d then 1 else 0))%nat
  else count d s.
Proof.
  induction s as [|a s IH]; simpl; [reflexivity |].
  destruct (Ascii.eqb_spec a c) as [->|Hne]; simpl.
  - rewrite count_append. destruct (Ascii.eqb c d); simpl; lia.
  - rewrite IH. destruct (0 <? count c s)%nat eqn:E.
    + apply Nat.ltb_lt in E.
      destruct (Ascii.eqb_spec c d) as [<-|Hcd]; [| lia].
      destruct (Ascii.eqb a c); lia.
    + reflexivity.
Qed.

Lemma replaceFirst_first (c : ascii) (rep pre post : string) :
  count c pre = 0%nat ->
  replaceFirst c rep (pre ++ String c post) = pre ++ rep ++ post.
Proof.
  induction pre as [|a pre IH]; app_norm; simpl; intros H.
  - now rewrite Ascii.eqb_refl.
  - destruct (Ascii.eqb a c); [discriminate |]. now rewrite IH.
Qed.

Lemma count_safePackageName (packageName : string) :
  count "@" (safePackageName packageName) = (count "@" packageName - 1)%nat
  /\ count "/" (safePackageName packageName) = (count "/" packageName - 1)%nat.
Proof.
  unfold safePackageName. rewrite !count_replaceFirst. simpl.
  destruct (Nat.ltb_spec 0 (count "@" packageName));
    rewrite ?Nat.add_0_r, ?Nat.sub_0_r;
    destruct (Nat.ltb_spec 0 (count "/" packageName)); lia.
Qed.

Lemma safePackageName_scoped (a c d : string) :
  count "@" a = 0%nat -> count "/" a = 0%nat -> count "/" c = 0%nat ->
  safePackageName (a ++ "@" ++ c ++ "/" ++ d) = a ++ c ++ "-" ++ d.
Proof.
  intros Ha Hs Hc. unfold safePackageName.
  change (a ++ "@" ++ c ++ "/" ++ d) with (a ++ String "@" (c ++ "/" ++ d)).
  rewrite (replaceFirst_first _ _ _ _ Ha). rewrite append_nil.
  rewrite <- append_assoc.
  change ((a ++ c) ++ "/" ++ d) with ((a ++ c) ++ String "/" d).
  rewrite replaceFirst_first by (rewrite count_append; lia).
  now rewrite append_assoc.
Qed.

(** C9. The sanitisation replaces the first at-sign and the first slash
    only: each of the two counts drops by one (or stays at zero), and a name
    that reads a, at-sign, c, slash, d, with neither character before the
    at-sign and no slash in c, becomes a, c, hyphen, d, with d untouched.  A
    name with at most one at-sign and one slash comes out with neither,
    while a name with two or more slashes keeps all but the first, and the
    file name computed from it holds a slash. *)
Theorem safePackageName_first_occurrence (prNumber packageName : string) :
  (count "@" (safePackageName packageName) = (count "@" packageName - 1)%nat
   /\ count "/" (safePackageName packageName) = (count "/" packageName - 1)%nat)
  /\ (forall a c d,
        packageName = a ++ "@" ++ c ++ "/" ++ d ->
        count "@" a = 0%nat -> count "/" a = 0%nat -> count "/" c = 0%nat ->
        safePackageName packageName = a ++ c ++ "-" ++ d)
  /\ ((count "@" packageName <= 1)%nat -> (count "/" packageName <= 1)%nat ->
      count "@" (safePackageName packageName) = 0%nat
      /\ count "/" (safePackageName packageName) = 0%nat)
  /\ ((2 <= count "/" packageName)%nat ->
      (1 <= count "/" (safePackageName packageName))%nat
      /\ (1 <= count "/" (changesetFilename prNumber packageName))%nat
      /\ includes (changesetFilename prNumber packageName) "/" = true).
Proof.
  destruct (count_safePackageName packageName) as [Ha Hs].
  split; [now split | split; [| split]].
  - intros a c d ->. apply safePackageName_scoped.
  - intros H1 H2. lia.
  - intros H2.
    assert (1 <= count "/" (changesetFilename prNumber packageName))%nat as Hc.
    { unfold changesetFilename. rewrite !count_append. lia. }
    split; [lia | split; [exact Hc |]].
    clear -Hc. induction (changesetFilename prNumber packageName) as [|a f IH].
    + simpl in Hc. lia.
    + simpl in *. destruct (Ascii.eqb a "/"); [reflexivity |].
      rewrite IH by lia. apply orb_true_r.
Qed.

Lemma safePackageName_first_occurrence_witness :
  safePackageName "@scope/tools/cli" = "scope-tools/cli"
  /\ count "/" (changesetFilename "12" "@scope/tools/cli") = 1%nat
  /\ count "/" (safePackageName "@scope/cli") = 0%nat.
Proof.
  destruct (safePackageName_first_occurrence "12" "@scope/tools/cli")
    as [_ [Hshape [_ Hmany]]].
  destruct (safePackageName_first_occurrence "12" "@scope/cli")
    as [_ [_ [Hone _]]].
  split; [| split].
  - apply (Hshape EmptyString "scope" "tools/cli"); reflexivity.
  - assert (2 <= count "/" "@scope/tools/cli")%nat as H by (simpl; lia).
    destruct (Hmany H) as [_ [_ _]]. reflexivity.
  - apply Hone; simpl; lia.
Defined.

(** ** The arguments *)

Lemma pop_last (l : list string) (x : string) : pop (l ++ [x]) = Some x.
Proof.
  induction l as [|a l IH]; [reflexivity |].
  rewrite <- app_comm_cons. simpl.
  destruct (l ++ [x])%list eqn:E; [now destruct l | exact IH].
Qed.

Lemma split_trailing (c : ascii) (body : string) :
  exists h t,
    split c (body ++ String c EmptyString) = ((h :: t) ++ [EmptyString])%list.
Proof.
  induction body as [|a body [h [t IH]]]; app_norm; simpl.
  - rewrite Ascii.eqb_refl. now exists EmptyString, [].
  - rewrite IH. destruct (Ascii.eqb a c).
    + now exists EmptyString, (h :: t).
    + now exists (String a h), t.
Qed.

Lemma pop_split_trailing (c : ascii) (body : string) :
  pop (split c (body ++ String c EmptyString)) = Some EmptyString.
Proof.
  destruct (split_trailing c body) as [h [t ->]]. apply pop_last.
Qed.

(** C10. When the third plain argument is missing (or empty) and the URL
    argument ends with a slash, the identifier read off the URL is the empty
    string; it counts as missing and the run exits with code 1, whatever the
    repository holds, with no file touched. *)
Theorem trailing_slash_url_is_fatal
  (w : World) (args : list string) (fs : gmap string string) (body : string) :
  prUrl (parseArgs args) = Some (body ++ "/") ->
  orNull (nth_error (List.filter (fun arg => negb (isUrl arg)) args) 2) = None ->
  prNumber (parseArgs args) = Some EmptyString
  /\ main w args fs = (Exited 1, fs).
Proof.
  intros Hurl Hno.
  assert (prNumber (parseArgs args) = Some EmptyString) as Hnum.
  { unfold parseArgs in *. simpl in *. rewrite Hno, Hurl.
    apply pop_split_trailing. }
  split; [exact Hnum |].
  unfold main. rewrite Hnum.
  destruct (sourceBranch (parseArgs args)); reflexivity.
Qed.

Lemma trailing_slash_url_is_fatal_witness :
  main (mkWorld (fun _ => Some "main") [mkPackage "core" "packages/core" "core"]
          (fun _ => true))
       ["https://github.com/org/repo/pull/123/"; "feature/x"; "origin/main"] ∅
  = (Exited 1, ∅).
Proof.
  apply (trailing_slash_url_is_fatal _ _ _ "https://github.com/org/repo/pull/123");
    reflexivity.
Defined.

(** ** The comparison range *)

Lemma firstVerified_first (w : World) (pre post : list string) (c : string) :
  (forall c', In c' pre -> ~ verifies w c') ->
  verifies w c ->
  firstVerified w (pre ++ c :: post) = Some c.
Proof.
  unfold verifies. induction pre as [|a pre IH]; simpl; intros Hpre Hc.
  - destruct (execSync w _); [reflexivity | contradiction].
  - destruct (execSync w ("git rev-parse --verify " ++ a)) eqn:E.
    + exfalso. apply (Hpre a); [now left | congruence].
    + apply IH; [| exact Hc]. intros c' Hin. apply Hpre. now right.
Qed.

Lemma firstVerified_none (w : World) (cs : list string) :
  (forall c, In c cs -> ~ verifies w c) -> firstVerified w cs = None.
Proof.
  unfold verifies. induction cs as [|a cs IH]; simpl; intros H; [reflexivity |].
  destruct (execSync w ("git rev-parse --verify " ++ a)) eqn:E.
  - exfalso. apply (H a); [now left | congruence].
  - apply IH. intros c Hin. apply H. now right.
Qed.

Lemma getDefaultBaseRef_upstream (w : World) (branch u : string) :
  upstreamIs w branch u -> getDefaultBaseRef w branch = u.
Proof.
  intros [out [Hq [Ht Hu]]]. unfold getDefaultBaseRef. rewrite Hq, Ht.
  destruct u; [contradiction | reflexivity].
Qed.

Lemma getDefaultBaseRef_probe (w : World) (branch : string) :
  noUpstream w branch -> getDefaultBaseRef w branch = probeCandidates w.
Proof.
  intros Hno. unfold getDefaultBaseRef.
  destruct (execSync w _) as [out|] eqn:Hq; [| reflexivity].
  destruct (trim out) as [|a r] eqn:Ht; [reflexivity |].
  exfalso. apply (Hno (String a r)). exists out. now repeat split.
Qed.

(** C7. The target branch is the override when one is given; without an
    override it is the upstream of the source branch when that is configured;
    without an upstream it is the first of origin/main, main, origin/master
    and master that git verifies; and origin/main when none does. *)
Theorem resolveTarget_order (w : World) (targetArg : option string)
  (sourceBranch : string) :
  candidates = ["origin/main"; "main"; "origin/master"; "master"]
  /\ (forall t, orNull targetArg = Some t ->
        resolveTarget w targetArg sourceBranch = t)
  /\ (orNull targetArg = None ->
      (forall u, upstreamIs w sourceBranch u ->
         resolveTarget w targetArg sourceBranch = u)
      /\ (noUpstream w sourceBranch ->
          (forall pre c post,
             candidates = (pre ++ c :: post)%list ->
             (forall c', In c' pre -> ~ verifies w c') ->
             verifies w c ->
             resolveTarget w targetArg sourceBranch = c)
          /\ ((forall c, In c candidates -> ~ verifies w c) ->
              resolveTarget w targetArg sourceBranch = "origin/main"))).
Proof.
  split; [reflexivity | split].
  - intros t Ht. unfold resolveTarget. now rewrite Ht.
  - intros Hnone. unfold resolveTarget. rewrite Hnone. split.
    + apply getDefaultBaseRef_upstream.
    + intros Hno. rewrite (getDefaultBaseRef_probe _ _ Hno).
      unfold probeCandidates. split.
      * intros pre c post Hc Hpre Hv.
        rewrite Hc. now rewrite (firstVerified_first w pre post c Hpre Hv).
      * intros Hall. now rewrite (firstVerified_none w candidates Hall).
Qed.

Lemma resolveTarget_order_witness :
  resolveTarget degradedWorld None "feature/x" = "main".
Proof.
  destruct (resolveTarget_order degradedWorld None "feature/x")
    as [_ [_ Hauto]].
  destruct (Hauto eq_refl) as [_ Hprobe].
  assert (noUpstream degradedWorld "feature/x") as Hno.
  { intros u [out [Hq _]]. vm_compute in Hq. discriminate. }
  destruct (Hprobe Hno) as [Hfirst _].
  apply (Hfirst ["origin/main"] "main" ["origin/master"; "master"]).
  - reflexivity.
  - intros c' [<- | []]. intros Hv. apply Hv. vm_compute. reflexivity.
  - intros Hv. vm_compute in Hv. discriminate.
Defined.

(** ** Degraded queries *)

Lemma analyse_returns (w : World) (url : option string)
  (n base source : string) (fs : gmap string string) :
  getPackages w <> [] -> fst (analyse w url n base source fs) = Returned.
Proof.
  intros Hp. unfold analyse.
  destruct (getPackages w) as [|p ps]; [contradiction |]. simpl.
  destruct (List.length (getCommitsInRange w base source) =? 0)%nat;
    [reflexivity |].
  destruct (List.length (Obj.keys _) =? 0)%nat; reflexivity.
Qed.

(** C6. A failed merge-base query makes the target branch the lower bound,
    and the run goes on from there; a failed file-list query makes the
    commit's file list empty, so the commit is attributed to no package and
    the loop goes on; and with a source branch, a PR identifier and at least
    one package, the run returns normally whichever queries fail. *)
Theorem query_degradation_continues (w : World) :
  (forall target source,
     execSync w ("git merge-base " ++ target ++ " " ++ source) = None ->
     resolveMergeBase w target source = target)
  /\ (forall args fs source n,
        sourceBranch (parseArgs args) = Some source ->
        orNull (prNumber (parseArgs args)) = Some n ->
        execSync w ("git merge-base "
                    ++ resolveTarget w (targetArg (parseArgs args)) source
                    ++ " " ++ source) = None ->
        main w args fs =
        analyse w (prUrl (parseArgs args)) n
          (resolveTarget w (targetArg (parseArgs args)) source) source fs)
  /\ (forall commitHash,
        execSync w ("git show --name-only --format=" ++ dq ++ dq ++ " "
                    ++ commitHash) = None ->
        getChangedFilesInCommit w commitHash = [])
  /\ (forall packages packageCommits commitLine,
        execSync w ("git show --name-only --format=" ++ dq ++ dq ++ " "
                    ++ fst (parseCommitLine commitLine)) = None ->
        attributeCommit w packages packageCommits commitLine = packageCommits)
  /\ (forall args fs source n,
        sourceBranch (parseArgs args) = Some source ->
        orNull (prNumber (parseArgs args)) = Some n ->
        getPackages w <> [] ->
        fst (main w args fs) = Returned).
Proof.
  assert (forall target source,
            execSync w ("git merge-base " ++ target ++ " " ++ source) = None ->
            resolveMergeBase w target source = target) as Hbase.
  { intros target source H. unfold resolveMergeBase. now rewrite H. }
  assert (forall commitHash,
            execSync w ("git show --name-only --format=" ++ dq ++ dq ++ " "
                        ++ commitHash) = None ->
            getChangedFilesInCommit w commitHash = []) as Hshow.
  { intros h H. unfold getChangedFilesInCommit. now rewrite H. }
  split; [exact Hbase | split; [| split; [exact Hshow | split]]].
  - intros args fs source n Hs Hn Hq. unfold main. rewrite Hs, Hn.
    now rewrite (Hbase _ _ Hq).
  - intros packages o line Hq. unfold attributeCommit.
    destruct (parseCommitLine line) as [h m]. simpl in Hq.
    rewrite (Hshow h Hq). clear.
    revert o. induction packages as [|p ps IH]; intros o; [reflexivity |].
    simpl. apply IH.
  - intros args fs source n Hs Hn Hp. unfold main. rewrite Hs, Hn.
    now apply analyse_returns.
Qed.

Lemma query_degradation_continues_witness :
  main degradedWorld ["https://github.com/org/repo/pull/12"; "feature/x"] ∅
  = analyse degradedWorld (Some "https://github.com/org/repo/pull/12") "12"
      "main" "feature/x" ∅
  /\ fst (main degradedWorld
            ["https://github.com/org/repo/pull/12"; "feature/x"] ∅) = Returned
  /\ attributeCommit degradedWorld (getPackages degradedWorld) Obj.empty
       "b7e41d08a5 fix!: null deref" = Obj.empty.
Proof.
  destruct (query_degradation_continues degradedWorld)
    as [_ [Hrun [_ [Hskip Hret]]]].
  split; [| split].
  - apply (Hrun ["https://github.com/org/repo/pull/12"; "feature/x"] ∅
             "feature/x" "12"); reflexivity.
  - apply (Hret ["https://github.com/org/repo/pull/12"; "feature/x"] ∅
             "feature/x" "12"); [reflexivity | reflexivity | discriminate].
  - apply Hskip. reflexivity.
Defined.

(** ** A failed log query *)

(** C8. When [git log] throws, the loader returns the empty list; with a
    source branch, a PR identifier and a package, the run then returns
    normally and leaves every file as it was.  A log query that succeeds with
    no line gives the very same status and files. *)
Theorem failed_log_is_empty_range
  (w : World) (args : list string) (fs : gmap string string)
  (source n : string) :
  sourceBranch (parseArgs args) = Some source ->
  orNull (prNumber (parseArgs args)) = Some n ->
  getPackages w <> [] ->
  let target := resolveTarget w (targetArg (parseArgs args)) source in
  let base := resolveMergeBase w target source in
  let query :=
    "git log " ++ (base ++ ".." ++ source) ++ " --oneline --no-merges" in
  (execSync w query = None ->
   getCommitsInRange w base source = [] /\ main w args fs = (Returned, fs))
  /\ (forall out, execSync w query = Some out -> outputLines out = [] ->
      getCommitsInRange w base source = [] /\ main w args fs = (Returned, fs)).
Proof.
  intros Hs Hn Hp target base query.
  assert (getCommitsInRange w base source = [] ->
          main w args fs = (Returned, fs)) as Hmain.
  { intros Hc. unfold main. rewrite Hs, Hn. fold target. fold base.
    unfold analyse. rewrite Hc.
    destruct (getPackages w); [contradiction | reflexivity]. }
  split.
  - intros Hq.
    assert (getCommitsInRange w base source = []) as Hc
      by (unfold getCommitsInRange; cbv zeta; fold query; now rewrite Hq).
    split; [exact Hc | exact (Hmain Hc)].
  - intros out Hq Hout.
    assert (getCommitsInRange w base source = []) as Hc
      by (unfold getCommitsInRange; cbv zeta; fold query; now rewrite Hq, Hout).
    split; [exact Hc | exact (Hmain Hc)].
Qed.

Lemma failed_log_is_empty_range_witness :
  main (mkWorld (fun _ => None) [mkPackage "core" "packages/core" "core"]
          (fun _ => true))
       ["feature/x"; "origin/main"; "12"] ∅
  = (Returned, ∅).
Proof.
  destruct (failed_log_is_empty_range
              (mkWorld (fun _ => None) [mkPackage "core" "packages/core" "core"]
                 (fun _ => true))
              ["feature/x"; "origin/main"; "12"] ∅ "feature/x" "12")
    as [Hthrow _]; [reflexivity | reflexivity | discriminate |].
  destruct (Hthrow eq_refl) as [_ Hmain]. exact Hmain.
Defined.

(** ** The object that holds the attribution *)

Section ObjectFacts.

Implicit Types (k n : string) (l : list (string * list CommitInfo)) (o : Obj.t).

Lemma lookup_assign k k' v l :
  Obj.lookup k (Obj.assign k' v l) =
  if String.eqb k k' then Some v else Obj.lookup k l.
Proof.
  induction l as [|[k1 v1] l IH]; simpl.
  - destruct (String.eqb k k'); reflexivity.
  - destruct (String.eqb_spec k' k1) as [->|Hne]; simpl.
    + destruct (String.eqb k k1); reflexivity.
    + rewrite IH. destruct (String.eqb_spec k k1) as [->|Hk]; [| reflexivity].
      destruct (String.eqb_spec k1 k'); [congruence | reflexivity].
Qed.

Lemma lookup_remove k k' l :
  Obj.lookup k (Obj.remove k' l) =
  if String.eqb k k' then None else Obj.lookup k l.
Proof.
  induction l as [|[k1 v1] l IH]; simpl.
  - destruct (String.eqb k k'); reflexivity.
  - destruct (String.eqb_spec k' k1) as [->|Hne]; simpl.
    + rewrite IH. destruct (String.eqb k k1); reflexivity.
    + rewrite IH. destruct (String.eqb_spec k k1) as [->|Hk]; [| reflexivity].
      destruct (String.eqb_spec k1 k'); [congruence | reflexivity].
Qed.

Lemma lookup_In k l :
  Obj.lookup k l <> None <-> In k (map fst l).
Proof.
  induction l as [|[k1 v1] l IH]; simpl; [tauto |].
  destruct (String.eqb_spec k k1) as [->|Hne].
  - split; [now left | discriminate].
  - rewrite IH. split; [now right | intros [E | H]; [congruence | exact H]].
Qed.

Lemma own_set k k' v o :
  k <> Obj.protoKey ->
  Obj.lookup k (Obj.own (Obj.set k' v o)) =
  if String.eqb k k' then Some v else Obj.lookup k (Obj.own o).
Proof.
  intros Hk. unfold Obj.set.
  destruct (String.eqb_spec k' Obj.protoKey) as [->|Hk']; simpl.
  - destruct (String.eqb_spec k Obj.protoKey); [contradiction | reflexivity].
  - apply lookup_assign.
Qed.

Lemma own_push k k' x o :
  k <> Obj.protoKey ->
  Obj.lookup k (Obj.own (Obj.push k' x o)) =
  if String.eqb k k'
  then option_map (fun arr => (arr ++ [x])%list) (Obj.lookup k (Obj.own o))
  else Obj.lookup k (Obj.own o).
Proof.
  intros Hk. unfold Obj.push, Obj.get.
  destruct (String.eqb_spec k' Obj.protoKey) as [->|Hk'].
  - destruct (String.eqb_spec k Obj.protoKey); [contradiction |].
    destruct (Obj.proto o); reflexivity.
  - destruct (Obj.lookup k' (Obj.own o)) as [arr|] eqn:E.
    + rewrite own_set by exact Hk.
      destruct (String.eqb_spec k k') as [->|Hne]; [now rewrite E | reflexivity].
    + destruct (String.eqb_spec k k') as [->|Hne]; [now rewrite E | reflexivity].
Qed.

Lemma own_delete k k' o :
  Obj.lookup k (Obj.own (Obj.delete k' o)) =
  if String.eqb k k' then None else Obj.lookup k (Obj.own o).
Proof. apply lookup_remove. Qed.

Lemma plain_set k v o : plain o -> plain (Obj.set k v o).
Proof.
  unfold plain, Obj.set. intros H.
  destruct (String.eqb_spec k Obj.protoKey) as [->|Hk]; simpl; [exact H |].
  rewrite lookup_assign.
  destruct (String.eqb_spec Obj.protoKey k); [congruence | exact H].
Qed.

Lemma plain_push k x o : plain o -> plain (Obj.push k x o).
Proof.
  intros H. unfold Obj.push. destruct (Obj.get k o); [now apply plain_set | exact H].
Qed.

Lemma plain_delete k o : plain o -> plain (Obj.delete k o).
Proof.
  unfold plain. intros H. rewrite own_delete, H.
  destruct (String.eqb Obj.protoKey k); reflexivity.
Qed.

Lemma insertIndex_In (i j : N) k k' (l : list (N * string)) :
  In (j, k') (Obj.insertIndex i k l) <-> (j, k') = (i, k) \/ In (j, k') l.
Proof.
  induction l as [|[m k1] l IH]; simpl.
  - split; [intros [E | []]; now left | intros [E | []]; now left].
  - destruct (i <=? m)%N; simpl; [split; intros [E | H]; auto |].
    rewrite IH. tauto.
Qed.

Lemma indexKeys_In (j : N) k (ks : list string) :
  In (j, k) (Obj.indexKeys ks) <-> In k ks /\ Obj.arrayIndex k = Some j.
Proof.
  induction ks as [|k1 ks IH]; simpl; [tauto |].
  destruct (Obj.arrayIndex k1) as [i|] eqn:E.
  - rewrite insertIndex_In, IH. split.
    + intros [H | [H1 H2]]; [injection H as -> ->; now split; [left |] | tauto].
    + intros [[-> | H1] H2]; [left; congruence | tauto].
  - rewrite IH. split; [tauto |].
    intros [[-> | H1] H2]; [congruence | tauto].
Qed.

Lemma keys_In k o : In k (Obj.keys o) <-> In k (map fst (Obj.own o)).
Proof.
  unfold Obj.keys. rewrite in_app_iff, in_map_iff, filter_In. split.
  - intros [[[j k'] [E H]] | [H _]]; [| exact H].
    simpl in E. subst k'. now apply indexKeys_In in H.
  - intros H. unfold Obj.isName.
    destruct (Obj.arrayIndex k) as [j|] eqn:E; [left | now right].
    exists (j, k). split; [reflexivity |]. now apply indexKeys_In.
Qed.

Lemma entries_In k v o :
  In (k, v) (Obj.entries o) <-> Obj.lookup k (Obj.own o) = Some v.
Proof.
  unfold Obj.entries. rewrite in_flat_map. split.
  - intros [k' [_ H]]. destruct (Obj.lookup k' (Obj.own o)) eqn:E; [| destruct H].
    destruct H as [H | []]. congruence.
  - intros H. exists k. split.
    + apply keys_In, lookup_In. congruence.
    + rewrite H. now left.
Qed.

End ObjectFacts.

(** ** Attribution *)

Section Attribution.

Context (w : World).

Implicit Types (k n : string) (o : Obj.t) (packages : list Package)
  (commits : list string).

Lemma plain_recordCommit h m cf o pkg :
  plain o -> plain (recordCommit h m cf o pkg).
Proof.
  intros H. unfold recordCommit.
  destruct (existsb _ cf); [now apply plain_push | exact H].
Qed.

Lemma plain_fold {A : Type} (f : Obj.t -> A -> Obj.t) (xs : list A) o :
  (forall o' x, plain o' -> plain (f o' x)) -> plain o -> plain (fold_left f xs o).
Proof.
  intros Hf. revert o. induction xs as [|x xs IH]; intros o H; simpl; auto.
Qed.

Lemma plain_dropEmpty o k : plain o -> plain (dropEmpty o k).
Proof.
  intros H. unfold dropEmpty. destruct (Obj.get k o) as [arr|]; [| exact H].
  destruct (List.length arr =? 0)%nat; [now apply plain_delete | exact H].
Qed.

Lemma plain_categorize commits packages :
  plain (categorizeCommitsByPackage w commits packages).
Proof.
  unfold categorizeCommitsByPackage.
  apply plain_fold; [apply plain_dropEmpty |].
  apply plain_fold.
  - intros o' line H. unfold attributeCommit.
    destruct (parseCommitLine line) as [h m].
    apply plain_fold; [apply plain_recordCommit | exact H].
  - apply plain_fold; [intros o' pkg; apply plain_set | reflexivity].
Qed.

Lemma get_set k k' v o :
  Obj.get k (Obj.set k' v o) = if String.eqb k k' then Some v else Obj.get k o.
Proof.
  unfold Obj.get, Obj.set.
  destruct (String.eqb_spec k' Obj.protoKey) as [->|Hk'];
    cbn [Obj.proto Obj.own].
  - destruct (String.eqb k Obj.protoKey); reflexivity.
  - destruct (String.eqb_spec k Obj.protoKey) as [->|Hk].
    + destruct (String.eqb_spec Obj.protoKey k'); [congruence | reflexivity].
    + apply lookup_assign.
Qed.

Lemma ready_set packages k v o : ready packages o -> ready packages (Obj.set k v o).
Proof.
  intros H pkg Hin. rewrite get_set.
  destruct (String.eqb (name pkg) k); [discriminate | now apply H].
Qed.

Lemma get_initial_stays k (qs : list Package) o :
  Obj.get k o <> None ->
  Obj.get k (fold_left (fun o q => Obj.set (name q) [] o) qs o) <> None.
Proof.
  revert o. induction qs as [|q qs IH]; intros o H; [exact H |].
  simpl. apply IH. rewrite get_set.
  destruct (String.eqb k (name q)); [discriminate | exact H].
Qed.

Lemma ready_initial packages o :
  ready packages (fold_left (fun o pkg => Obj.set (name pkg) [] o) packages o).
Proof.
  unfold ready. revert o.
  induction packages as [|p ps IH]; intros o pkg Hin; [destruct Hin |].
  destruct Hin as [-> | Hin]; simpl.
  - apply get_initial_stays. rewrite get_set, String.eqb_refl. discriminate.
  - now apply IH.
Qed.

(** Every push of the script finds its array. *)
Lemma push_finds_array packages commits pkg :
  In pkg packages ->
  Obj.get (name pkg)
    (fold_left (attributeCommit w packages) commits
       (fold_left (fun o p => Obj.set (name p) [] o) packages Obj.empty))
  <> None.
Proof.
  intros Hin.
  assert (forall o, ready packages o ->
            ready packages (fold_left (attributeCommit w packages) commits o))
    as Hkeep.
  { induction commits as [|c cs IH]; intros o H; [exact H |].
    simpl. apply IH. unfold attributeCommit.
    destruct (parseCommitLine c) as [h m].
    generalize (getChangedFilesInCommit w h) as cf. intros cf.
    assert (forall ps o', ready packages o' ->
              ready packages (fold_left (recordCommit h m cf) ps o')) as Hrec.
    { induction ps as [|p ps IHp]; intros o' H'; [exact H' |].
      simpl. apply IHp. unfold recordCommit.
      destruct (existsb (inPackage p) cf); [| exact H'].
      unfold Obj.push. destruct (Obj.get (name p) o'); [| exact H'].
      now apply ready_set. }
    now apply Hrec. }
  apply (Hkeep _ (ready_initial packages Obj.empty)). exact Hin.
Qed.

(** The first loop: every name gets an empty array. *)
Lemma own_initial k packages o :
  k <> Obj.protoKey ->
  Obj.lookup k (Obj.own (fold_left (fun o pkg => Obj.set (name pkg) [] o) packages o)) =
  if named k packages then Some [] else Obj.lookup k (Obj.own o).
Proof.
  intros Hk. unfold named. revert o.
  induction packages as [|p ps IH]; intros o; simpl; [reflexivity |].
  rewrite IH, own_set by exact Hk.
  destruct (String.eqb k (name p)); simpl; destruct (existsb _ ps); reflexivity.
Qed.

(** The inner loop, for one commit line. *)
Lemma own_attributeCommit k packages o commitLine :
  k <> Obj.protoKey ->
  Obj.lookup k (Obj.own (attributeCommit w packages o commitLine)) =
  option_map (fun arr => (arr ++ pushedUnder w packages k commitLine)%list)
    (Obj.lookup k (Obj.own o)).
Proof.
  intros Hk. unfold attributeCommit, pushedUnder, recorded, changedFilesOf.
  destruct (parseCommitLine commitLine) as [h m]. simpl fst. simpl snd.
  generalize (getChangedFilesInCommit w h) as cf. intros cf. revert o.
  induction packages as [|p ps IH]; intros o; simpl.
  - destruct (Obj.lookup k (Obj.own o)); simpl; [now rewrite app_nil_r | reflexivity].
  - rewrite IH. unfold recordCommit.
    destruct (existsb (inPackage p) cf) eqn:E.
    + rewrite own_push by exact Hk.
      destruct (String.eqb k (name p)); simpl.
      * destruct (Obj.lookup k (Obj.own o)); simpl; [| reflexivity].
        now rewrite <- app_assoc.
      * reflexivity.
    + destruct (String.eqb k (name p)); reflexivity.
Qed.

(** The loop over the commit lines. *)
Lemma own_filled k packages commits o :
  k <> Obj.protoKey ->
  Obj.lookup k (Obj.own (fold_left (attributeCommit w packages) commits o)) =
  option_map
    (fun arr => (arr ++ flat_map (pushedUnder w packages k) commits)%list)
    (Obj.lookup k (Obj.own o)).
Proof.
  intros Hk. revert o.
  induction commits as [|c cs IH]; intros o; simpl.
  - destruct (Obj.lookup k (Obj.own o)); simpl; [now rewrite app_nil_r | reflexivity].
  - rewrite IH, own_attributeCommit by exact Hk.
    destruct (Obj.lookup k (Obj.own o)); simpl; [| reflexivity].
    now rewrite <- app_assoc.
Qed.

(** The last loop: the keys with an empty array go. *)
Lemma own_dropEmpty k (ks : list string) o :
  k <> Obj.protoKey ->
  Obj.lookup k (Obj.own (fold_left dropEmpty ks o)) =
  match Obj.lookup k (Obj.own o) with
  | Some [] => if existsb (String.eqb k) ks then None else Some []
  | other => other
  end.
Proof.
  intros Hk. revert o.
  induction ks as [|k1 ks IH]; intros o; simpl.
  - destruct (Obj.lookup k (Obj.own o)) as [[|]|]; reflexivity.
  - rewrite IH. unfold dropEmpty, Obj.get.
    destruct (String.eqb_spec k k1) as [<-|Hne]; simpl.
    + destruct (String.eqb_spec k Obj.protoKey); [contradiction |].
      destruct (Obj.lookup k (Obj.own o)) as [[|e arr]|] eqn:E; simpl.
      * now rewrite lookup_remove, String.eqb_refl.
      * now rewrite E.
      * now rewrite E.
    + assert (forall o', Obj.lookup k (Obj.own (Obj.delete k1 o')) =
                         Obj.lookup k (Obj.own o')) as Hd.
      { intros o'. rewrite own_delete.
        destruct (String.eqb_spec k k1); [contradiction | reflexivity]. }
      destruct (if String.eqb k1 Obj.protoKey then Obj.proto o
                else Obj.lookup k1 (Obj.own o)) as [arr|]; [| reflexivity].
      destruct (List.length arr =? 0)%nat; [now rewrite Hd | reflexivity].
Qed.

(** What [categorizeCommitsByPackage] holds under a name. *)
Lemma own_categorize k commits packages :
  k <> Obj.protoKey ->
  Obj.lookup k (Obj.own (categorizeCommitsByPackage w commits packages)) =
  if named k packages
  then match flat_map (pushedUnder w packages k) commits with
       | [] => None
       | es => Some es
       end
  else None.
Proof.
  intros Hk. unfold categorizeCommitsByPackage.
  set (initial := fold_left _ packages Obj.empty).
  set (filled := fold_left _ commits initial).
  assert (Obj.lookup k (Obj.own filled) =
          if named k packages
          then Some (flat_map (pushedUnder w packages k) commits)
          else None) as Hfilled.
  { unfold filled. rewrite own_filled by exact Hk.
    unfold initial. rewrite own_initial by exact Hk.
    destruct (named k packages); reflexivity. }
  rewrite own_dropEmpty by exact Hk. rewrite Hfilled.
  destruct (named k packages) eqn:En; [| reflexivity].
  destruct (flat_map _ commits) eqn:Ef; [| reflexivity].
  assert (In k (Obj.keys filled)) as Hin.
  { apply keys_In, lookup_In. rewrite Hfilled. discriminate. }
  destruct (existsb (String.eqb k) (Obj.keys filled)) eqn:Ex; [reflexivity |].
  exfalso. assert (existsb (String.eqb k) (Obj.keys filled) = true) as Ht.
  { apply existsb_exists. exists k. split; [exact Hin | apply String.eqb_refl]. }
  congruence.
Qed.

Lemma pushedUnder_absent packages n commitLine :
  (forall pkg, In pkg packages -> name pkg <> n) ->
  pushedUnder w packages n commitLine = [].
Proof.
  unfold pushedUnder. induction packages as [|p ps IH]; intros H; simpl.
  - reflexivity.
  - destruct (String.eqb_spec n (name p)) as [->|Hne].
    + exfalso. apply (H p); [now left | reflexivity].
    + apply IH. intros pkg Hin. apply H. now right.
Qed.

Lemma pushedUnder_none packages n commitLine :
  (forall pkg, In pkg packages -> name pkg = n -> recorded w pkg commitLine = None) ->
  pushedUnder w packages n commitLine = [].
Proof.
  unfold pushedUnder. induction packages as [|p ps IH]; intros H; simpl.
  - reflexivity.
  - rewrite IH by (intros pkg Hin; apply H; now right).
    destruct (String.eqb_spec n (name p)) as [->|Hne]; [| reflexivity].
    rewrite (H p); [reflexivity | now left | reflexivity].
Qed.

Lemma pushedUnder_unique packages P commitLine :
  List.NoDup (map name packages) -> In P packages ->
  pushedUnder w packages (name P) commitLine = entryList (recorded w P commitLine).
Proof.
  induction packages as [|p ps IH]; intros Hnd Hin; [destruct Hin |].
  simpl in Hnd. apply NoDup_cons_iff in Hnd as [Hp Hps].
  change (pushedUnder w (p :: ps) (name P) commitLine)
    with ((if String.eqb (name P) (name p)
           then entryList (recorded w p commitLine) else [])
          ++ pushedUnder w ps (name P) commitLine)%list.
  destruct Hin as [-> | Hin].
  - rewrite String.eqb_refl, pushedUnder_absent; [apply app_nil_r |].
    intros pkg Hpkg E. apply Hp. rewrite <- E. now apply in_map.
  - destruct (String.eqb_spec (name P) (name p)) as [E|Hne].
    + exfalso. apply Hp. rewrite <- E. now apply in_map.
    + now apply IH.
Qed.

Lemma named_In packages P : In P packages -> named (name P) packages = true.
Proof.
  intros H. apply existsb_exists. exists P. split; [exact H | apply String.eqb_refl].
Qed.

Lemma attributed_In P commits c :
  In c (attributed w P commits) ->
  exists commitLine, In commitLine commits /\ recorded w P commitLine = Some c.
Proof.
  unfold attributed. rewrite in_flat_map. intros [line [Hin Hc]].
  exists line. split; [exact Hin |].
  destruct (recorded w P line); [destruct Hc as [-> | []]; reflexivity | destruct Hc].
Qed.

Lemma attributed_length P commits :
  (List.length (attributed w P commits) <= List.length commits)%nat.
Proof.
  unfold attributed. induction commits as [|c cs IH]; simpl; [lia |].
  rewrite length_app. destruct (recorded w P c); simpl; lia.
Qed.

Lemma recorded_files P commitLine c file :
  recorded w P commitLine = Some c -> In file (files c) ->
  In file (changedFilesOf w commitLine) /\ beginsWith file (path P ++ "/").
Proof.
  unfold recorded. destruct (existsb _ _); [| discriminate].
  intros [= <-]. simpl. rewrite filter_In. intros [Hin Hp].
  split; [exact Hin | now apply startsWith_spec].
Qed.

Lemma attributeCommit_outside packages o commitLine :
  (forall pkg file, In pkg packages -> In file (changedFilesOf w commitLine) ->
                    inPackage pkg file = false) ->
  attributeCommit w packages o commitLine = o.
Proof.
  unfold attributeCommit, changedFilesOf.
  destruct (parseCommitLine commitLine) as [h m]. simpl fst.
  generalize (getChangedFilesInCommit w h) as cf. intros cf H. revert o.
  induction packages as [|p ps IH]; intros o; [reflexivity |]. simpl.
  assert (existsb (inPackage p) cf = false) as E.
  { apply not_true_is_false. intros Ht. apply existsb_exists in Ht as [f [Hf Hp]].
    rewrite (H p f) in Hp; [discriminate | now left | exact Hf]. }
  unfold recordCommit at 2. rewrite E. apply IH.
  intros pkg file Hpkg. apply H. now right.
Qed.

(** The entries of the attribution, key by key. *)
Lemma entries_categorize commits packages n (es : list CommitInfo) :
  In (n, es) (Obj.entries (categorizeCommitsByPackage w commits packages)) <->
  n <> Obj.protoKey /\ named n packages = true
  /\ es = flat_map (pushedUnder w packages n) commits /\ es <> [].
Proof.
  rewrite entries_In. split.
  - intros Hin.
    assert (n <> Obj.protoKey) as Hk.
    { intros E. rewrite E in Hin.
      pose proof (plain_categorize commits packages) as Hpl.
      unfold plain in Hpl. congruence. }
    rewrite (own_categorize _ commits packages Hk) in Hin.
    destruct (named n packages); [| discriminate].
    destruct (flat_map _ commits) as [|e l]; [discriminate |].
    injection Hin as <-. now repeat split.
  - intros [Hk [Hn [-> Hne]]].
    rewrite (own_categorize _ commits packages Hk), Hn.
    destruct (flat_map _ commits); [contradiction | reflexivity].
Qed.

(** Whatever the names, every entry under a name was recorded for a package
    of that name, from one of the commit lines. *)
Lemma entries_recorded commits packages n (es : list CommitInfo) c :
  In (n, es) (Obj.entries (categorizeCommitsByPackage w commits packages)) ->
  In c es ->
  exists P commitLine,
    In P packages /\ name P = n /\ In commitLine commits
    /\ recorded w P commitLine = Some c.
Proof.
  intros Hin Hc. apply entries_categorize in Hin as [_ [_ [-> _]]].
  apply in_flat_map in Hc as [line [Hline Hc]].
  unfold pushedUnder in Hc. apply in_flat_map in Hc as [P [HP Hc]].
  destruct (String.eqb_spec n (name P)) as [->|Hne]; [| destruct Hc].
  exists P, line. repeat split; auto.
  destruct (recorded w P line); [destruct Hc as [-> | []]; reflexivity | destruct Hc].
Qed.

End Attribution.

(** C3. Under a package P (names being unique, as the data model has them)
    the attribution holds exactly one entry for each commit line that has a
    file under P's root and none for the others, in the order of the lines,
    however many files match; and every file of such an entry is a changed
    file of its commit and starts with P's path followed by a slash. *)
Theorem attribution_path_prefix
  (w : World) (commits : list string) (packages : list Package)
  (P : Package) (es : list CommitInfo) :
  List.NoDup (map name packages) ->
  In P packages ->
  In (name P, es) (Obj.entries (categorizeCommitsByPackage w commits packages)) ->
  es = attributed w P commits
  /\ (List.length es <= List.length commits)%nat
  /\ (forall c, In c es ->
       exists commitLine,
         In commitLine commits /\ recorded w P commitLine = Some c
         /\ forall file, In file (files c) ->
              In file (changedFilesOf w commitLine)
              /\ beginsWith file (path P ++ "/")).
Proof.
  intros Hnd HP Hin.
  apply entries_categorize in Hin as [_ [_ [Hes _]]].
  assert (es = attributed w P commits) as ->.
  { rewrite Hes. unfold attributed. apply flat_map_ext. intros line.
    now apply pushedUnder_unique. }
  split; [reflexivity | split; [apply attributed_length |]].
  intros c Hc. apply attributed_In in Hc as [line [Hline Hrec]].
  exists line. split; [exact Hline | split; [exact Hrec |]].
  intros file Hfile. exact (recorded_files w P line c file Hrec Hfile).
Qed.

Lemma attribution_path_prefix_witness :
  [mkCommit "3f2a9c1" "feat: add button" ["packages/ui/src/Button.ts"]]
  = attributed scenarioWorld uiPackage
      ["3f2a9c1 feat: add button"; "b7e41d08a5 fix!: null deref";
       "c0ffee1 chore: update ci"].
Proof.
  apply (attribution_path_prefix scenarioWorld
           ["3f2a9c1 feat: add button"; "b7e41d08a5 fix!: null deref";
            "c0ffee1 chore: update ci"]
           (getPackages scenarioWorld) uiPackage).
  - simpl. repeat constructor; simpl; intuition discriminate.
  - simpl. right. left. reflexivity.
  - vm_compute. right. left. reflexivity.
Defined.

(** C4. A commit whose changed files all lie outside every package root
    leaves the attribution untouched when the loop processes it, so the
    attribution, and with it every generated changeset, is the one obtained
    without the commit.  A name under which no commit is recorded is not a key
    of the attribution, and no key holds an empty list: such a package gets
    no changeset.  When every commit of the range is of that kind, the run
    writes nothing. *)
Theorem no_cross_talk (w : World) (packages : list Package) :
  (forall packageCommits commitLine,
     (forall pkg file, In pkg packages -> In file (changedFilesOf w commitLine) ->
                       inPackage pkg file = false) ->
     attributeCommit w packages packageCommits commitLine = packageCommits)
  /\ (forall before commitLine after,
        (forall pkg file, In pkg packages ->
                          In file (changedFilesOf w commitLine) ->
                          inPackage pkg file = false) ->
        categorizeCommitsByPackage w (before ++ commitLine :: after) packages
        = categorizeCommitsByPackage w (before ++ after) packages)
  /\ (forall commits n,
        (forall commitLine pkg, In commitLine commits -> In pkg packages ->
                                name pkg = n -> recorded w pkg commitLine = None) ->
        forall es,
          ~ In (n, es) (Obj.entries (categorizeCommitsByPackage w commits packages)))
  /\ (forall commits n es,
        In (n, es) (Obj.entries (categorizeCommitsByPackage w commits packages)) ->
        es <> [])
  /\ (forall url prNumber mergeBase sourceBranch fs,
        packages = getPackages w ->
        (forall commitLine pkg file,
           In commitLine (getCommitsInRange w mergeBase sourceBranch) ->
           In pkg packages -> In file (changedFilesOf w commitLine) ->
           inPackage pkg file = false) ->
        snd (analyse w url prNumber mergeBase sourceBranch fs) = fs).
Proof.
  assert (forall commits n,
            (forall commitLine pkg, In commitLine commits -> In pkg packages ->
                                    name pkg = n ->
                                    recorded w pkg commitLine = None) ->
            forall es,
              ~ In (n, es)
                  (Obj.entries (categorizeCommitsByPackage w commits packages)))
    as Hnokey.
  { intros commits n Hnone es Hin.
    apply entries_categorize in Hin as [_ [_ [Hes Hne]]]. apply Hne.
    rewrite Hes. clear Hes Hne.
    induction commits as [|c cs IH]; [reflexivity |]. simpl.
    rewrite IH by (intros line pkg Hl; apply Hnone; now right).
    rewrite app_nil_r. apply pushedUnder_none.
    intros pkg Hpkg. apply Hnone; [now left | exact Hpkg]. }
  split; [| split; [| split; [exact Hnokey | split]]].
  - intros o line H. now apply attributeCommit_outside.
  - intros before line after H. unfold categorizeCommitsByPackage.
    rewrite !fold_left_app. simpl.
    now rewrite (attributeCommit_outside w packages _ line H).
  - intros commits n es Hin. now apply entries_categorize in Hin.
  - intros url prNumber mergeBase sourceBranch fs -> Hout. unfold analyse.
    destruct (List.length (getPackages w) =? 0)%nat; [reflexivity |].
    destruct (List.length (getCommitsInRange w _ _) =? 0)%nat; [reflexivity |].
    destruct (List.length (Obj.keys _) =? 0)%nat; [reflexivity |].
    destruct (Obj.entries _) as [|[n es] rest] eqn:E; [reflexivity |].
    exfalso. apply (Hnokey (getCommitsInRange w mergeBase sourceBranch) n) with es.
    + intros line pkg Hline Hpkg _. unfold recorded.
      destruct (existsb (inPackage pkg) (changedFilesOf w line)) eqn:Ex;
        [| reflexivity].
      apply existsb_exists in Ex as [file [Hfile Hp]].
      rewrite (Hout line pkg file Hline Hpkg Hfile) in Hp. discriminate.
    + rewrite E. now left.
Qed.

(** On the scenario: the commit c0ffee1 touches the top of the repository
    and [packages/uikit], which is not under [packages/ui/]. *)
Lemma no_cross_talk_witness :
  categorizeCommitsByPackage scenarioWorld
    ["3f2a9c1 feat: add button"; "c0ffee1 chore: update ci";
     "b7e41d08a5 fix!: null deref"] (getPackages scenarioWorld)
  = categorizeCommitsByPackage scenarioWorld
      ["3f2a9c1 feat: add button"; "b7e41d08a5 fix!: null deref"]
      (getPackages scenarioWorld).
Proof.
  destruct (no_cross_talk scenarioWorld (getPackages scenarioWorld))
    as [_ [Hsame _]].
  apply (Hsame ["3f2a9c1 feat: add button"] "c0ffee1 chore: update ci"
           ["b7e41d08a5 fix!: null deref"]).
  intros pkg file Hpkg Hfile.
  vm_compute in Hfile.
  destruct Hpkg as [<- | [<- | []]];
    destruct Hfile as [<- | [<- | [<- | []]]]; reflexivity.
Defined.

(** ** Writing the files *)

Section Writing.

Context (w : World) (url : option string) (n : string).

Lemma written_lookup (es : list (string * list CommitInfo))
  (fs : gmap string string) (target : string) :
  fold_left (writeChangeset w url n) es fs !! target =
  match lastWritten w url n es target with
  | Some doc => Some doc
  | None => fs !! target
  end.
Proof.
  revert fs. induction es as [|[k commits] es IH]; intros fs; [reflexivity |].
  cbn [fold_left lastWritten]. rewrite IH.
  destruct (lastWritten w url n es target); [reflexivity |].
  unfold writeChangeset.
  generalize (changesetPath (changesetFilename n k)) as file. intros file.
  destruct (writable w file); cbn [andb]; [| reflexivity].
  destruct (String.eqb_spec file target) as [->|Hne].
  - apply lookup_insert_eq.
  - now apply lookup_insert_ne.
Qed.

Lemma written_twice (es : list (string * list CommitInfo))
  (fs : gmap string string) :
  fold_left (writeChangeset w url n) es (fold_left (writeChangeset w url n) es fs)
  = fold_left (writeChangeset w url n) es fs.
Proof.
  apply map_eq. intros target. rewrite !written_lookup.
  destruct (lastWritten w url n es target); reflexivity.
Qed.

Lemma lastWritten_rendered (es : list (string * list CommitInfo))
  (target doc : string) :
  lastWritten w url n es target = Some doc ->
  exists k commits,
    In (k, commits) es
    /\ target = changesetPath (changesetFilename n k)
    /\ doc = generateChangeset k commits url.
Proof.
  induction es as [|[k commits] es IH]; cbn [lastWritten]; [discriminate |].
  destruct (lastWritten w url n es target) as [d|].
  - intros H. destruct (IH H) as [k' [c' [Hin Hrest]]].
    exists k', c'. split; [now right | exact Hrest].
  - destruct (writable w _); cbn [andb]; [| discriminate].
    destruct (String.eqb_spec (changesetPath (changesetFilename n k)) target)
      as [<-|Hne]; [| discriminate].
    intros [= <-]. exists k, commits. split; [now left | now split].
Qed.

End Writing.

(** Every run is a status and a list of writes that do not depend on the
    files found. *)
Lemma main_writes (w : World) (args : list string) :
  exists status n es,
    (forall fs, main w args fs =
                (status,
                 fold_left (writeChangeset w (prUrl (parseArgs args)) n) es fs))
    /\ (forall k commits, In (k, commits) es ->
         exists packages lines,
           In (k, commits)
              (Obj.entries (categorizeCommitsByPackage w lines packages))).
Proof.
  unfold main.
  destruct (sourceBranch (parseArgs args)) as [source|];
    [| exists (Exited 1), EmptyString, []; split; [reflexivity | intros ? ? []]].
  destruct (orNull (prNumber (parseArgs args))) as [n|];
    [| exists (Exited 1), EmptyString, []; split; [reflexivity | intros ? ? []]].
  unfold analyse.
  destruct (List.length (getPackages w) =? 0)%nat;
    [exists (Exited 1), n, []; split; [reflexivity | intros ? ? []] |].
  destruct (List.length (getCommitsInRange w _ source) =? 0)%nat;
    [exists Returned, n, []; split; [reflexivity | intros ? ? []] |].
  destruct (List.length (Obj.keys _) =? 0)%nat;
    [exists Returned, n, []; split; [reflexivity | intros ? ? []] |].
  eexists Returned, n, _. split; [reflexivity |].
  intros k commits Hin. eexists _, _. exact Hin.
Qed.

(** C5. Running [main] again on the files it left, with the same arguments
    in the same repository, changes nothing: same status, same files.  The
    status does not depend on the files found; a path is either left alone or
    given a content that does not depend on what it held; and every content
    written is [generateChangeset] of an entry of the attribution and the
    URL argument, at the path computed from the PR identifier and the package
    name. *)
Theorem rerun_overwrites_identically
  (w : World) (args : list string) (fs : gmap string string) :
  main w args (snd (main w args fs)) = main w args fs
  /\ (forall fs', fst (main w args fs') = fst (main w args fs))
  /\ (forall fs' target,
        snd (main w args fs) !! target = snd (main w args fs') !! target
        \/ (snd (main w args fs) !! target = fs !! target
            /\ snd (main w args fs') !! target = fs' !! target))
  /\ (forall target doc,
        snd (main w args fs) !! target = Some doc ->
        fs !! target = Some doc
        \/ exists n k commits packages lines,
             In (k, commits)
                (Obj.entries (categorizeCommitsByPackage w lines packages))
             /\ target = changesetPath (changesetFilename n k)
             /\ doc = generateChangeset k commits (prUrl (parseArgs args))).
Proof.
  destruct (main_writes w args) as [status [n [es [Hmain Hes]]]].
  split; [| split; [| split]].
  - rewrite !Hmain. simpl. now rewrite written_twice.
  - intros fs'. now rewrite !Hmain.
  - intros fs' target. rewrite !Hmain. simpl. rewrite !written_lookup.
    destruct (lastWritten w _ n es target); [now left | now right].
  - intros target doc. rewrite Hmain. simpl. rewrite written_lookup.
    destruct (lastWritten w _ n es target) as [d|] eqn:E; [| now left].
    intros [= ->]. right.
    destruct (lastWritten_rendered w _ n es target doc E)
      as [k [commits [Hin [Ht Hd]]]].
    destruct (Hes k commits Hin) as [packages [lines Hentry]].
    exists n, k, commits, packages, lines. now repeat split.
Qed.

Lemma rerun_overwrites_identically_witness :
  main scenarioWorld
    ["https://github.com/org/repo/pull/12"; "feature"; "origin/main"]
    (snd (main scenarioWorld
            ["https://github.com/org/repo/pull/12"; "feature"; "origin/main"] ∅))
  = main scenarioWorld
      ["https://github.com/org/repo/pull/12"; "feature"; "origin/main"] ∅.
Proof.
  exact (proj1 (rerun_overwrites_identically scenarioWorld
                  ["https://github.com/org/repo/pull/12"; "feature";
                   "origin/main"] ∅)).
Defined.

(** The two files of the scenario, byte for byte. *)
Example main_on_scenario :
  main scenarioWorld
    ["https://github.com/org/repo/pull/12"; "feature"; "origin/main"] ∅
  = (Returned,
     <[ ".changeset/auto-pr-12-ui.md" :=
          "---" ++ nl ++ dq ++ "ui" ++ dq ++ ": minor" ++ nl ++ "---" ++ nl ++ nl
          ++ "-   **새로운 기능**" ++ nl
          ++ "    -   add button (3f2a9c1)" ++ nl ++ nl
          ++ "**관련 PR**: [#12](https://github.com/org/repo/pull/12)" ++ nl ]>
       (<[ ".changeset/auto-pr-12-core.md" :=
             "---" ++ nl ++ dq ++ "core" ++ dq ++ ": major" ++ nl ++ "---" ++ nl ++ nl
             ++ "-   **버그 수정**" ++ nl
             ++ "    -   fix!: null deref (b7e41d0)" ++ nl ++ nl
             ++ "**관련 PR**: [#12](https://github.com/org/repo/pull/12)" ++ nl ]>
          ∅)).
Proof. vm_compute. reflexivity. Qed.

(** ** The scenario of the documentation *)

Lemma split_head (c : ascii) (h rest : string) :
  count c h = 0%nat ->
  split c (h ++ String c rest) = h :: split c rest.
Proof.
  induction h as [|a h IH]; app_norm; simpl; intros H.
  - now rewrite Ascii.eqb_refl.
  - destruct (Ascii.eqb a c); [discriminate |]. now rewrite IH.
Qed.

Lemma split_nonempty (c : ascii) (s : string) : split c s <> [].
Proof.
  destruct s as [|a s]; simpl; [discriminate |].
  destruct (Ascii.eqb a c); [discriminate |].
  destruct (split c s); discriminate.
Qed.

Lemma join_split (c : ascii) (s : string) :
  join (String c EmptyString) (split c s) = s.
Proof.
  induction s as [|a s IH]; [reflexivity |]. simpl.
  pose proof (split_nonempty c s) as Hne.
  destruct (Ascii.eqb_spec a c) as [->|Hac].
  - destruct (split c s) as [|p ps]; [contradiction |].
    cbn [join]. cbn [join] in IH. app_norm. now rewrite IH.
  - destruct (split c s) as [|p ps]; [contradiction |].
    destruct ps as [|q ps]; cbn [join] in *; [now rewrite IH |].
    app_norm. now rewrite IH.
Qed.

Lemma parseCommitLine_spec (h m : string) :
  count " " h = 0%nat -> parseCommitLine (h ++ String " " m) = (h, m).
Proof.
  intros H. unfold parseCommitLine. rewrite (split_head _ _ _ H).
  now rewrite (join_split " " m).
Qed.

(** C2, as the code has it.  With packages core and ui, a commit
    "feat: add button" touching [packages/ui/src/Button.ts] and a commit
    "fix!: null deref" touching [packages/core/src/x.ts], the attribution has
    the entries core and ui; ui gets the bump minor and the single item
    "add button (hash7)" under features; core gets the bump major and the
    single item "fix!: null deref (hash7)", kept as written, under bugFixes,
    and nothing under others. *)
Theorem scenario_changesets (w : World) (h1 h2 : string) :
  count " " h1 = 0%nat ->
  count " " h2 = 0%nat ->
  getChangedFilesInCommit w h1 = ["packages/ui/src/Button.ts"] ->
  getChangedFilesInCommit w h2 = ["packages/core/src/x.ts"] ->
  let attribution :=
    categorizeCommitsByPackage w
      [h1 ++ " feat: add button"; h2 ++ " fix!: null deref"]
      [corePackage; uiPackage] in
  let uiCommits :=
    [mkCommit h1 "feat: add button" ["packages/ui/src/Button.ts"]] in
  let coreCommits :=
    [mkCommit h2 "fix!: null deref" ["packages/core/src/x.ts"]] in
  Obj.entries attribution = [("core", coreCommits); ("ui", uiCommits)]
  /\ determineVersionType uiCommits = minor
  /\ categorizeCommits uiCommits =
     mkCategories ["add button (" ++ substring0 7 h1 ++ ")"] [] [] [] [] [] []
  /\ determineVersionType coreCommits = major
  /\ categorizeCommits coreCommits =
     mkCategories [] ["fix!: null deref (" ++ substring0 7 h2 ++ ")"]
       [] [] [] [] [].
Proof.
  intros H1 H2 Hui Hcore. cbv zeta.
  split; [| repeat split].
  unfold categorizeCommitsByPackage. cbn [fold_left].
  unfold attributeCommit.
  change (h1 ++ " feat: add button") with (h1 ++ String " " "feat: add button").
  change (h2 ++ " fix!: null deref") with (h2 ++ String " " "fix!: null deref").
  rewrite (parseCommitLine_spec _ _ H1), (parseCommitLine_spec _ _ H2).
  rewrite Hui, Hcore. reflexivity.
Qed.

Lemma scenario_changesets_witness :
  Obj.entries
    (categorizeCommitsByPackage scenarioWorld
       (getCommitsInRange scenarioWorld "4e5d6c7" "feature")
       (getPackages scenarioWorld))
  = [("core", [mkCommit "b7e41d08a5" "fix!: null deref" ["packages/core/src/x.ts"]]);
     ("ui", [mkCommit "3f2a9c1" "feat: add button" ["packages/ui/src/Button.ts"]])]
  /\ bugFixes (categorizeCommits
                 [mkCommit "b7e41d08a5" "fix!: null deref"
                    ["packages/core/src/x.ts"]])
     = ["fix!: null deref (b7e41d0)"].
Proof.
  destruct (scenario_changesets scenarioWorld "3f2a9c1" "b7e41d08a5")
    as [Hentries [_ [_ [_ Hcore]]]]; try reflexivity.
  split.
  - exact Hentries.
  - cbv zeta in Hcore. rewrite Hcore. reflexivity.
Defined.

(** C2, as the documentation states it, fails on the scenario: the item of
    the core package is not under others. *)
Lemma scenario_core_item_not_in_others :
  ~ (exists es,
       In ("core", es)
          (Obj.entries
             (categorizeCommitsByPackage scenarioWorld
                (getCommitsInRange scenarioWorld "4e5d6c7" "feature")
                (getPackages scenarioWorld)))
       /\ determineVersionType es = major
       /\ In "fix!: null deref (b7e41d0)" (others (categorizeCommits es))).
Proof.
  intros [es [Hin [_ Hitem]]].
  vm_compute in Hin.
  destruct Hin as [Hcore | [Hui | []]]; [| discriminate].
  injection Hcore as <-. vm_compute in Hitem. exact Hitem.
Qed.

(** * Further properties of the script *)

(** ** Classification *)

Lemma categorizeCommit_cases (acc : Categories) (c : CommitInfo) :
  categorizeCommit acc c =
  if has "feat" c then
    mkCategories (features acc ++ [itemOf (Some "feat:") c]) (bugFixes acc)
      (refactoring acc) (performance acc) (documentation acc) (chores acc)
      (others acc)
  else if has "fix" c then
    mkCategories (features acc) (bugFixes acc ++ [itemOf (Some "fix:") c])
      (refactoring acc) (performance acc) (documentation acc) (chores acc)
      (others acc)
  else if has "refactor" c then
    mkCategories (features acc) (bugFixes acc)
      (refactoring acc ++ [itemOf (Some "refactor:") c]) (performance acc)
      (documentation acc) (chores acc) (others acc)
  else if has "perf" c then
    mkCategories (features acc) (bugFixes acc) (refactoring acc)
      (performance acc ++ [itemOf (Some "perf:") c]) (documentation acc)
      (chores acc) (others acc)
  else if has "docs" c then
    mkCategories (features acc) (bugFixes acc) (refactoring acc)
      (performance acc) (documentation acc ++ [itemOf (Some "docs:") c])
      (chores acc) (others acc)
  else if has "chore" c then
    mkCategories (features acc) (bugFixes acc) (refactoring acc)
      (performance acc) (documentation acc)
      (chores acc ++ [itemOf (Some "chore:") c]) (others acc)
  else
    mkCategories (features acc) (bugFixes acc) (refactoring acc)
      (performance acc) (documentation acc) (chores acc)
      (others acc ++ [itemOf None c]).
Proof. destruct acc. reflexivity. Qed.

Lemma categorize_fold (cs : list CommitInfo) (acc : Categories) :
  fold_left categorizeCommit cs acc =
  mkCategories
    (features acc ++ map (itemOf (Some "feat:")) (List.filter (has "feat") cs))
    (bugFixes acc ++ map (itemOf (Some "fix:")) (List.filter takesFix cs))
    (refactoring acc
     ++ map (itemOf (Some "refactor:")) (List.filter takesRefactor cs))
    (performance acc ++ map (itemOf (Some "perf:")) (List.filter takesPerf cs))
    (documentation acc ++ map (itemOf (Some "docs:")) (List.filter takesDocs cs))
    (chores acc ++ map (itemOf (Some "chore:")) (List.filter takesChore cs))
    (others acc ++ map (itemOf None) (List.filter takesOther cs)).
Proof.
  revert acc. induction cs as [|c cs IH]; intros acc.
  - destruct acc. cbn [fold_left List.filter map]. now rewrite !app_nil_r.
  - cbn [fold_left]. rewrite IH, categorizeCommit_cases.
    cbn [List.filter].
    unfold takesFix, takesRefactor, takesPerf, takesDocs, takesChore, takesOther.
    destruct (has "feat" c); [cbn; now rewrite <- app_assoc |].
    destruct (has "fix" c); [cbn; now rewrite <- app_assoc |].
    destruct (has "refactor" c); [cbn; now rewrite <- app_assoc |].
    destruct (has "perf" c); [cbn; now rewrite <- app_assoc |].
    destruct (has "docs" c); [cbn; now rewrite <- app_assoc |].
    destruct (has "chore" c); cbn; now rewrite <- app_assoc.
Qed.

Lemma takes_partition (cs : list CommitInfo) :
  (List.length (List.filter (has "feat") cs)
   + List.length (List.filter takesFix cs)
   + List.length (List.filter takesRefactor cs)
   + List.length (List.filter takesPerf cs)
   + List.length (List.filter takesDocs cs)
   + List.length (List.filter takesChore cs)
   + List.length (List.filter takesOther cs))%nat = List.length cs.
Proof.
  assert (forall (f : CommitInfo -> bool) c l,
            List.length (List.filter f (c :: l))
            = ((if f c then 1 else 0) + List.length (List.filter f l))%nat)
    as Hstep.
  { intros f c l. cbn [List.filter]. destruct (f c); reflexivity. }
  induction cs as [|c cs IH]; [reflexivity |].
  rewrite !Hstep. cbn [List.length]. rewrite <- IH.
  assert ((if has "feat" c then 1 else 0) + (if takesFix c then 1 else 0)
          + (if takesRefactor c then 1 else 0) + (if takesPerf c then 1 else 0)
          + (if takesDocs c then 1 else 0) + (if takesChore c then 1 else 0)
          + (if takesOther c then 1 else 0) = 1)%nat as Hone.
  { unfold takesFix, takesRefactor, takesPerf, takesDocs, takesChore,
      takesOther.
    destruct (has "feat" c), (has "fix" c), (has "refactor" c),
      (has "perf" c), (has "docs" c), (has "chore" c); reflexivity. }
  lia.
Qed.

(** X1. Each category of [categorizeCommits] holds, in the order of the
    commits, the items of the commits whose trimmed, lower-cased subject
    passes the category's prefix test and none of the tests before it (feat,
    fix, refactor, perf, docs, chore, in that order); the commits passing no
    test go to others with their subject uncut.  No commit is dropped or
    listed twice: the items are as many as the commits. *)
Theorem categorizeCommits_lists (commits : list CommitInfo) :
  features (categorizeCommits commits)
    = map (itemOf (Some "feat:")) (List.filter (has "feat") commits)
  /\ bugFixes (categorizeCommits commits)
    = map (itemOf (Some "fix:")) (List.filter takesFix commits)
  /\ refactoring (categorizeCommits commits)
    = map (itemOf (Some "refactor:")) (List.filter takesRefactor commits)
  /\ performance (categorizeCommits commits)
    = map (itemOf (Some "perf:")) (List.filter takesPerf commits)
  /\ documentation (categorizeCommits commits)
    = map (itemOf (Some "docs:")) (List.filter takesDocs commits)
  /\ chores (categorizeCommits commits)
    = map (itemOf (Some "chore:")) (List.filter takesChore commits)
  /\ others (categorizeCommits commits)
    = map (itemOf None) (List.filter takesOther commits)
  /\ itemCount (categorizeCommits commits) = List.length commits.
Proof.
  unfold categorizeCommits. rewrite categorize_fold.
  unfold itemCount. cbn [features bugFixes refactoring performance
                          documentation chores others noCategories app].
  repeat split. rewrite !length_map. apply takes_partition.
Qed.

(** ** The bump of several commits *)

Lemma determineVersionType_tests (commits : list CommitInfo) :
  determineVersionType commits =
  if existsb isBreaking commits then major
  else if existsb (has "feat") commits then minor
  else patch.
Proof.
  unfold determineVersionType.
  assert (forall f, existsb f (map message commits)
                    = existsb (fun c => f (message c)) commits) as Hmap.
  { intros f. induction commits as [|c cs IH]; [reflexivity |].
    cbn [map existsb]. now rewrite IH. }
  rewrite !Hmap.
  change (fun c => includes (message c) "BREAKING CHANGE"
                   || includes (message c) "!:") with isBreaking.
  change (fun c => startsWith (toLowerCase (trim (message c))) "feat")
    with (has "feat").
  destruct (existsb isBreaking commits); [reflexivity |].
  destruct (existsb (has "feat") commits); [reflexivity |].
  destruct (existsb _ commits); reflexivity.
Qed.

Lemma existsb_permutation {A : Type} (f : A -> bool) (l l' : list A) :
  Permutation l l' -> existsb f l = existsb f l'.
Proof.
  intros Hp. apply eq_true_iff_eq. rewrite !existsb_exists.
  split; intros [x [Hin Hx]]; exists x; split; auto.
  - now apply (Permutation_in _ Hp).
  - now apply (Permutation_in _ (Permutation_sym Hp)).
Qed.

(** X2. The bump of two lists of commits put together is the greater of
    their bumps; so more commits never lower a bump, no commits at all give
    patch, and the bump does not depend on the order of the commits. *)
Theorem determineVersionType_combines (commits more : list CommitInfo) :
  determineVersionType (commits ++ more)
    = maxBump (determineVersionType commits) (determineVersionType more)
  /\ atLeast (determineVersionType commits) (determineVersionType (commits ++ more))
  /\ determineVersionType [] = patch
  /\ (forall reordered, Permutation commits reordered ->
        determineVersionType reordered = determineVersionType commits).
Proof.
  assert (determineVersionType (commits ++ more)
          = maxBump (determineVersionType commits) (determineVersionType more))
    as Happ.
  { rewrite !determineVersionType_tests, !existsb_app.
    destruct (existsb isBreaking commits), (existsb isBreaking more),
      (existsb (has "feat") commits), (existsb (has "feat") more); reflexivity. }
  split; [exact Happ | split; [| split; [reflexivity |]]].
  - rewrite Happ. unfold atLeast.
    destruct (determineVersionType commits), (determineVersionType more);
      simpl; lia.
  - intros reordered Hp. rewrite !determineVersionType_tests.
    now rewrite <- (existsb_permutation isBreaking _ _ Hp),
      <- (existsb_permutation (has "feat") _ _ Hp).
Qed.

Lemma filter_nil_existsb {A : Type} (f : A -> bool) (l : list A) :
  List.filter f l = [] <-> existsb f l = false.
Proof.
  induction l as [|x l IH]; [easy |]. cbn [List.filter existsb].
  destruct (f x); [easy | exact IH].
Qed.

(** X3. The bump and the categories agree on features: a changeset whose
    bump is patch lists no feature, one whose bump is minor lists at least
    one feature and has no commit with a breaking marker, and a major one has
    a commit whose subject contains BREAKING CHANGE or "!:". *)
Theorem bump_matches_features (commits : list CommitInfo) :
  (determineVersionType commits = patch ->
   features (categorizeCommits commits) = [])
  /\ (determineVersionType commits = minor ->
      features (categorizeCommits commits) <> []
      /\ forall c, In c commits -> isBreaking c = false)
  /\ (determineVersionType commits = major ->
      exists c, In c commits /\ isBreaking c = true).
Proof.
  assert (features (categorizeCommits commits)
          = map (itemOf (Some "feat:")) (List.filter (has "feat") commits))
    as Hfeat.
  { unfold categorizeCommits. now rewrite categorize_fold. }
  rewrite Hfeat, determineVersionType_tests.
  destruct (existsb isBreaking commits) eqn:Eb.
  - split; [discriminate | split; [discriminate |]].
    intros _. now apply existsb_exists.
  - destruct (existsb (has "feat") commits) eqn:Ef.
    + split; [discriminate | split; [| discriminate]].
      intros _. split.
      * intros Hnil. apply map_eq_nil in Hnil.
        apply filter_nil_existsb in Hnil. congruence.
      * intros c Hc. apply not_true_is_false. intros Ht.
        assert (existsb isBreaking commits = true)
          by (apply existsb_exists; now exists c).
        congruence.
    + split; [| split; discriminate].
      intros _. apply filter_nil_existsb in Ef. now rewrite Ef.
Qed.

(** ** The summary *)

Lemma append_eq_empty (a b : string) :
  a ++ b = EmptyString <-> a = EmptyString /\ b = EmptyString.
Proof.
  split; [| intros [-> ->]; reflexivity].
  destruct a; app_norm; [now split | discriminate].
Qed.

Lemma bullets_append (items : list string) (acc : string) :
  fold_left (fun summary it => summary ++ "    -   " ++ it ++ nl) items acc
  = acc ++ fold_left (fun summary it => summary ++ "    -   " ++ it ++ nl)
             items EmptyString.
Proof.
  revert acc. induction items as [|it items IH]; intros acc; cbn [fold_left].
  - now rewrite append_empty_r.
  - rewrite IH. rewrite (IH (EmptyString ++ _)).
    now rewrite append_nil, !append_assoc.
Qed.

Lemma summarySection_shape (heading : string) (items : list string) :
  (items = [] /\ summarySection heading items = EmptyString)
  \/ (items <> [] /\ beginsWith (summarySection heading items) "-   **").
Proof.
  destruct items as [|it items]; [left; now split | right].
  split; [discriminate |]. unfold summarySection.
  cbn [List.length Nat.ltb Nat.leb]. rewrite bullets_append.
  eexists. rewrite !append_assoc. reflexivity.
Qed.

Lemma headed_section (acc heading : string) (items : list string) :
  headed acc ->
  headed (acc ++ summarySection heading items)
  /\ (acc ++ summarySection heading items = EmptyString
      <-> acc = EmptyString /\ items = []).
Proof.
  intros Hacc. rewrite append_eq_empty.
  destruct (summarySection_shape heading items) as [[-> ->] | [Hne [rest ->]]].
  - rewrite append_empty_r. split; [exact Hacc | tauto].
  - split.
    + destruct Hacc as [-> | [r ->]]; right.
      * now exists rest.
      * eexists. now rewrite append_assoc.
    + split; [intros [_ H]; discriminate | intros [_ H]; contradiction].
Qed.

Lemma trim_heading (rest : string) :
  trim ("-   **" ++ rest) = "-   **" ++ trimEnd rest.
Proof. destruct rest as [|a [|b r]]; reflexivity. Qed.

(** X4. The summary is empty exactly when no category has an item;
    otherwise it opens with the bullet of a heading.  For the categories of a
    list of commits this means: the body of a changeset is empty only for an
    empty list of commits. *)
Theorem summary_empty_iff (categories : Categories) :
  (generateKoreanSummary categories = EmptyString <-> itemCount categories = 0%nat)
  /\ ((0 < itemCount categories)%nat ->
      beginsWith (generateKoreanSummary categories) "-   **")
  /\ (forall commits,
        categories = categorizeCommits commits ->
        (generateKoreanSummary categories = EmptyString <-> commits = [])).
Proof.
  assert (exists text,
            generateKoreanSummary categories = trim text /\ headed text
            /\ (text = EmptyString <-> itemCount categories = 0%nat))
    as [text [Hsum [Hhead Hempty]]].
  { unfold generateKoreanSummary. eexists. split; [reflexivity |].
    destruct (headed_section EmptyString "새로운 기능" (features categories))
      as [H1 E1]; [now left |].
    destruct (headed_section _ "버그 수정" (bugFixes categories) H1) as [H2 E2].
    destruct (headed_section _ "리팩토링" (refactoring categories) H2) as [H3 E3].
    destruct (headed_section _ "성능 개선" (performance categories) H3) as [H4 E4].
    destruct (headed_section _ "문서" (documentation categories) H4) as [H5 E5].
    destruct (headed_section _ "기타" (chores categories) H5) as [H6 E6].
    destruct (headed_section _ "기타 변경사항" (others categories) H6) as [H7 E7].
    split; [exact H7 |].
    rewrite E7, E6, E5, E4, E3, E2, E1. unfold itemCount.
    rewrite <- !length_zero_iff_nil.
    split; [intros; lia | intros; repeat split; (reflexivity || lia)]. }
  assert (generateKoreanSummary categories = EmptyString
          <-> itemCount categories = 0%nat) as Hiff.
  { rewrite Hsum, <- Hempty. destruct Hhead as [-> | [rest ->]].
    - split; reflexivity.
    - rewrite trim_heading. split; intros H; app_norm; discriminate. }
  split; [exact Hiff | split].
  - intros Hpos. rewrite Hsum. destruct Hhead as [-> | [rest ->]].
    + assert (itemCount categories = 0%nat) by now apply Hempty. lia.
    + rewrite trim_heading. now eexists.
  - intros commits ->. rewrite Hiff.
    unfold categorizeCommits. rewrite categorize_fold. unfold itemCount.
    cbn [features bugFixes refactoring performance documentation chores
         others noCategories app].
    rewrite !length_map, takes_partition. apply length_zero_iff_nil.
Qed.

Lemma summary_empty_iff_witness :
  generateKoreanSummary
    (categorizeCommits [mkCommit "3f2a9c1" "wip" ["packages/ui/a.ts"]])
  <> EmptyString.
Proof.
  destruct (summary_empty_iff
              (categorizeCommits [mkCommit "3f2a9c1" "wip" ["packages/ui/a.ts"]]))
    as [_ [_ Hcommits]].
  intros H. apply (Hcommits _ eq_refl) in H. discriminate.
Defined.

(** ** Lines of output and commit lines *)

Lemma split_parts (c : ascii) (s part : string) :
  In part (split c s) -> count c part = 0%nat.
Proof.
  revert part. induction s as [|a s IH]; intros part; simpl.
  - intros [<- | []]. reflexivity.
  - destruct (Ascii.eqb_spec a c) as [->|Hac].
    + intros [<- | H]; [reflexivity | now apply IH].
    + destruct (split c s) as [|h t] eqn:E.
      * intros [<- | []]. simpl.
        destruct (Ascii.eqb_spec a c); [contradiction | reflexivity].
      * intros [<- | H].
        -- simpl. destruct (Ascii.eqb_spec a c); [contradiction |].
           apply IH. now left.
        -- apply IH. now right.
Qed.

Lemma split_absent (c : ascii) (s : string) :
  count c s = 0%nat -> split c s = [s].
Proof.
  induction s as [|a s IH]; simpl; [reflexivity |].
  destruct (Ascii.eqb a c); [discriminate |].
  intros H. now rewrite (IH H).
Qed.

Lemma outputLines_In (out line : string) :
  In line (outputLines out) -> line <> EmptyString /\ count LF line = 0%nat.
Proof.
  unfold outputLines. rewrite filter_In. intros [Hin Ht]. split.
  - intros ->. discriminate.
  - exact (split_parts _ _ _ Hin).
Qed.

(** X5. Every line that [getCommitsInRange] returns and every path that
    [getChangedFilesInCommit] returns is non-empty and holds no line feed. *)
Theorem query_lines_clean (w : World) :
  (forall fromRef toRef line,
     In line (getCommitsInRange w fromRef toRef) ->
     line <> EmptyString /\ count LF line = 0%nat)
  /\ (forall commitHash file,
        In file (getChangedFilesInCommit w commitHash) ->
        file <> EmptyString /\ count LF file = 0%nat).
Proof.
  split.
  - intros fromRef toRef line. unfold getCommitsInRange.
    destruct (execSync w _) as [out|]; [| intros []].
    destruct (List.length (outputLines out) =? 0)%nat; [intros [] |].
    apply outputLines_In.
  - intros commitHash file. unfold getChangedFilesInCommit.
    destruct (execSync w _) as [out|]; [| intros []].
    apply outputLines_In.
Qed.

(** X6. A commit line is cut at its first space: the hash holds no space,
    and hash, space and message put together give the line back, with
    every later space of the message kept.  A line without a space is all
    hash, with an empty message. *)
Theorem parseCommitLine_roundtrip (commitLine : string) :
  count " " (fst (parseCommitLine commitLine)) = 0%nat
  /\ (count " " commitLine = 0%nat ->
      parseCommitLine commitLine = (commitLine, EmptyString))
  /\ ((0 < count " " commitLine)%nat ->
      commitLine = fst (parseCommitLine commitLine) ++ " "
                   ++ snd (parseCommitLine commitLine)).
Proof.
  pose proof (join_split " " commitLine) as Hjoin.
  pose proof (split_parts " " commitLine) as Hparts.
  unfold parseCommitLine.
  destruct (split " " commitLine) as [|h t] eqn:E.
  - exfalso. exact (split_nonempty _ _ E).
  - cbn [fst snd]. split; [apply Hparts; now left | split].
    + intros H0. rewrite (split_absent _ _ H0) in E. now injection E as <- <-.
    + intros Hpos. destruct t as [|m t].
      * cbn [join] in Hjoin. subst h.
        rewrite (Hparts commitLine) in Hpos by now left. lia.
      * cbn [join] in Hjoin. now rewrite <- Hjoin.
Qed.

Lemma parseCommitLine_roundtrip_witness :
  "3f2a9c1 fix:  two  spaces"
  = fst (parseCommitLine "3f2a9c1 fix:  two  spaces") ++ " "
    ++ snd (parseCommitLine "3f2a9c1 fix:  two  spaces").
Proof.
  apply (parseCommitLine_roundtrip "3f2a9c1 fix:  two  spaces"). simpl. lia.
Defined.

(** ** The arguments, further *)

Lemma find_after_plain (pre rest : list string) (url : string) :
  (forall x, In x pre -> isUrl x = false) -> isUrl url = true ->
  List.find isUrl (pre ++ url :: rest) = Some url.
Proof.
  intros Hpre Hu. induction pre as [|x pre IH]; cbn [app List.find].
  - now rewrite Hu.
  - rewrite (Hpre x) by now left. apply IH. intros y Hy. apply Hpre. now right.
Qed.

Lemma filter_plain (l : list string) :
  (forall x, In x l -> isUrl x = false) ->
  List.filter (fun arg => negb (isUrl arg)) l = l.
Proof.
  induction l as [|x l IH]; intros H; [reflexivity |]. cbn [List.filter].
  rewrite (H x) by now left. cbn [negb]. f_equal. apply IH.
  intros y Hy. apply H. now right.
Qed.

(** X7. The URL argument may stand anywhere: with a single URL among the
    arguments, the arguments are read the same wherever it is put, the other
    arguments being taken in their order as source branch, target branch and
    PR identifier. *)
Theorem parseArgs_url_anywhere (before after : list string) (url : string) :
  isUrl url = true ->
  (forall x, In x (before ++ after) -> isUrl x = false) ->
  parseArgs (before ++ url :: after) = parseArgs (url :: before ++ after)
  /\ prUrl (parseArgs (before ++ url :: after)) = Some url
  /\ sourceBranch (parseArgs (before ++ url :: after))
     = orNull (nth_error (before ++ after) 0)
  /\ targetArg (parseArgs (before ++ url :: after))
     = orNull (nth_error (before ++ after) 1).
Proof.
  intros Hu Hplain.
  assert (List.find isUrl (before ++ url :: after) = Some url) as Hfind.
  { apply find_after_plain; [| exact Hu].
    intros x Hx. apply Hplain. apply in_or_app. now left. }
  assert (List.filter (fun arg => negb (isUrl arg)) (before ++ url :: after)
          = (before ++ after)%list) as Hfilter.
  { rewrite List.filter_app. cbn [List.filter]. rewrite Hu. cbn [negb].
    rewrite <- List.filter_app. now apply filter_plain. }
  assert (truthy url = true) as Htruthy.
  { destruct url; [discriminate Hu | reflexivity]. }
  assert (parseArgs (before ++ url :: after)
          = mkArgs (Some url) (orNull (nth_error (before ++ after) 0))
              (orNull (nth_error (before ++ after) 1))
              match orNull (nth_error (before ++ after) 2) with
              | Some n => Some n
              | None => pop (split "/" url)
              end) as Hparse.
  { unfold parseArgs. rewrite Hfind, Hfilter. cbn [orNull]. now rewrite Htruthy. }
  assert (parseArgs (url :: before ++ after)
          = mkArgs (Some url) (orNull (nth_error (before ++ after) 0))
              (orNull (nth_error (before ++ after) 1))
              match orNull (nth_error (before ++ after) 2) with
              | Some n => Some n
              | None => pop (split "/" url)
              end) as Hfront.
  { unfold parseArgs. cbn [List.find List.filter]. rewrite Hu. cbn [negb].
    rewrite (filter_plain _ Hplain). cbn [orNull]. now rewrite Htruthy. }
  rewrite Hparse, Hfront. now repeat split.
Qed.

Lemma parseArgs_url_anywhere_witness :
  parseArgs ["feature/x"; "https://github.com/org/repo/pull/12"; "origin/main"]
  = parseArgs ["https://github.com/org/repo/pull/12"; "feature/x"; "origin/main"].
Proof.
  apply (parseArgs_url_anywhere ["feature/x"]
           ["origin/main"] "https://github.com/org/repo/pull/12").
  - reflexivity.
  - intros x [<- | [<- | []]]; reflexivity.
Defined.

Lemma split_last_segment (c : ascii) (body segment : string) :
  count c segment = 0%nat ->
  exists h t, split c (body ++ String c segment) = ((h :: t) ++ [segment])%list.
Proof.
  intros Hseg. induction body as [|a body [h [t IH]]]; app_norm; simpl.
  - rewrite Ascii.eqb_refl, (split_absent _ _ Hseg).
    now exists EmptyString, [].
  - rewrite IH. destruct (Ascii.eqb a c).
    + now exists EmptyString, (h :: t).
    + now exists (String a h), t.
Qed.

(** X8. The PR identifier is the third plain argument when there is one
    (and it is not empty), whatever the URL; failing that it is the text of
    the URL after its last slash. *)
Theorem prNumber_source (args : list string) :
  (forall n, orNull (nth_error (List.filter (fun arg => negb (isUrl arg)) args) 2)
             = Some n ->
             prNumber (parseArgs args) = Some n)
  /\ (forall body segment,
        orNull (nth_error (List.filter (fun arg => negb (isUrl arg)) args) 2)
        = None ->
        prUrl (parseArgs args) = Some (body ++ "/" ++ segment) ->
        count "/" segment = 0%nat ->
        prNumber (parseArgs args) = Some segment).
Proof.
  split.
  - intros n Hn. unfold parseArgs. cbn [prNumber]. now rewrite Hn.
  - intros body segment Hno Hurl Hseg. unfold parseArgs in *.
    cbn [prNumber prUrl] in *. rewrite Hno, Hurl.
    change (body ++ "/" ++ segment) with (body ++ String "/" segment).
    destruct (split_last_segment "/" body segment Hseg) as [h [t ->]].
    apply pop_last.
Qed.

Lemma prNumber_source_witness :
  prNumber (parseArgs ["https://github.com/org/repo/pull/12"; "feature/x"])
  = Some "12"
  /\ prNumber (parseArgs ["https://github.com/org/repo/pull/12"; "feature/x";
                           "origin/main"; "34"]) = Some "34".
Proof.
  split.
  - apply (proj2 (prNumber_source
                    ["https://github.com/org/repo/pull/12"; "feature/x"])
             "https://github.com/org/repo/pull" "12"); reflexivity.
  - apply (proj1 (prNumber_source
                    ["https://github.com/org/repo/pull/12"; "feature/x";
                     "origin/main"; "34"])). reflexivity.
Defined.

(** ** How a run ends *)


(** ** What a run writes *)






Lemma lastWritten_withWritable (w : World) (canWrite : string -> bool)
  (url : option string) (n : string) (es : list (string * list CommitInfo))
  (target : string) :
  canWrite target = writable w target ->
  lastWritten (withWritable w canWrite) url n es target
  = lastWritten w url n es target.
Proof.
  intros Hsame. induction es as [|[k commits] es IH]; cbn [lastWritten];
    [reflexivity |].
  rewrite IH. destruct (lastWritten w url n es target); [reflexivity |].
  destruct (String.eqb_spec (changesetPath (changesetFilename n k)) target)
    as [->|Hne].
  - cbn [withWritable writable]. now rewrite Hsame.
  - now rewrite !andb_false_r.
Qed.

(** X11. Write failures are isolated: what a run leaves at a path depends on
    whether that path can be written, not on whether any other path can; and
    the status of the run does not depend on write failures at all. *)
Theorem write_failures_isolated (w : World) (canWrite : string -> bool)
  (args : list string) (fs : gmap string string) :
  fst (main (withWritable w canWrite) args fs) = fst (main w args fs)
  /\ (forall target,
        canWrite target = writable w target ->
        snd (main (withWritable w canWrite) args fs) !! target
        = snd (main w args fs) !! target).
Proof.
  unfold main.
  destruct (sourceBranch (parseArgs args)) as [source|]; [| now split].
  destruct (orNull (prNumber (parseArgs args))) as [n|]; [| now split].
  change (resolveTarget (withWritable w canWrite))
    with (resolveTarget w).
  change (resolveMergeBase (withWritable w canWrite))
    with (resolveMergeBase w).
  unfold analyse.
  change (getPackages (withWritable w canWrite)) with (getPackages w).
  change (getCommitsInRange (withWritable w canWrite))
    with (getCommitsInRange w).
  change (categorizeCommitsByPackage (withWritable w canWrite))
    with (categorizeCommitsByPackage w).
  destruct (List.length (getPackages w) =? 0)%nat; [now split |].
  destruct (List.length (getCommitsInRange w _ source) =? 0)%nat; [now split |].
  destruct (List.length (Obj.keys _) =? 0)%nat; [now split |].
  split; [reflexivity |]. intros target Hsame. cbn [snd].
  rewrite !written_lookup. now rewrite lastWritten_withWritable.
Qed.

Lemma write_failures_isolated_witness :
  snd (main (withWritable scenarioWorld
               (fun p => negb (String.eqb p ".changeset/auto-pr-12-core.md")))
         ["https://github.com/org/repo/pull/12"; "feature"; "origin/main"] ∅)
  !! ".changeset/auto-pr-12-ui.md"
  = snd (main scenarioWorld
           ["https://github.com/org/repo/pull/12"; "feature"; "origin/main"] ∅)
    !! ".changeset/auto-pr-12-ui.md".
Proof.
  apply (write_failures_isolated scenarioWorld). reflexivity.
Defined.

(** ** The keys of the attribution *)

Lemma pushed_In (w : World) (packages : list Package) (commits : list string)
  (n : string) (c : CommitInfo) :
  In c (flat_map (pushedUnder w packages n) commits) <->
  exists pkg commitLine,
    In pkg packages /\ name pkg = n /\ In commitLine commits
    /\ recorded w pkg commitLine = Some c.
Proof.
  rewrite in_flat_map. unfold pushedUnder. split.
  - intros [line [Hline Hc]]. apply in_flat_map in Hc as [pkg [Hpkg Hc]].
    destruct (String.eqb_spec n (name pkg)) as [->|Hne]; [| destruct Hc].
    exists pkg, line. repeat split; auto.
    destruct (recorded w pkg line); [destruct Hc as [-> | []]; reflexivity |
                                      destruct Hc].
  - intros [pkg [line [Hpkg [<- [Hline Hrec]]]]].
    exists line. split; [exact Hline |]. apply in_flat_map.
    exists pkg. split; [exact Hpkg |].
    rewrite String.eqb_refl, Hrec. now left.
Qed.

(** X12. The keys of the attribution are exactly the names, other than
    [__proto__], of the packages for which some commit line of the range has
    a changed file under the package root: no such package is left out, no
    other name comes in, and a package whose manifest is named [__proto__]
    never gets a changeset.  Without commits or without packages there is no
    key. *)
Theorem attribution_keys (w : World) (commits : list string)
  (packages : list Package) :
  (forall n,
     In n (Obj.keys (categorizeCommitsByPackage w commits packages)) <->
     n <> Obj.protoKey
     /\ exists pkg commitLine,
          In pkg packages /\ name pkg = n /\ In commitLine commits
          /\ existsb (inPackage pkg) (changedFilesOf w commitLine) = true)
  /\ ~ In Obj.protoKey (Obj.keys (categorizeCommitsByPackage w commits packages))
  /\ (commits = [] \/ packages = [] ->
      Obj.keys (categorizeCommitsByPackage w commits packages) = []).
Proof.
  assert (forall n,
            In n (Obj.keys (categorizeCommitsByPackage w commits packages)) <->
            n <> Obj.protoKey
            /\ exists pkg commitLine,
                 In pkg packages /\ name pkg = n /\ In commitLine commits
                 /\ existsb (inPackage pkg) (changedFilesOf w commitLine) = true)
    as Hkeys.
  { intros n. rewrite keys_In, <- lookup_In. split.
    - intros Hsome.
      destruct (Obj.lookup n (Obj.own _)) as [es|] eqn:E; [| contradiction].
      apply entries_In, entries_categorize in E as [Hk [_ [Hes Hne]]].
      split; [exact Hk |].
      destruct es as [|c es]; [contradiction |].
      assert (In c (flat_map (pushedUnder w packages n) commits)) as Hc
        by (rewrite <- Hes; now left).
      apply pushed_In in Hc as [pkg [line [Hpkg [Hn [Hline Hrec]]]]].
      exists pkg, line. repeat split; auto.
      unfold recorded in Hrec. destruct (existsb _ _); [reflexivity | discriminate].
    - intros [Hk [pkg [line [Hpkg [Hn [Hline Hex]]]]]].
      assert (exists c, recorded w pkg line = Some c) as [c Hrec]
        by (unfold recorded; rewrite Hex; eauto).
      assert (In c (flat_map (pushedUnder w packages n) commits)) as Hc
        by (apply pushed_In; exists pkg, line; auto).
      assert (In (n, flat_map (pushedUnder w packages n) commits)
                (Obj.entries (categorizeCommitsByPackage w commits packages)))
        as Hentry.
      { apply entries_categorize. repeat split; auto.
        - subst n. now apply named_In.
        - intros Hnil. rewrite Hnil in Hc. destruct Hc. }
      apply entries_In in Hentry. congruence. }
  split; [exact Hkeys | split].
  - intros H. apply Hkeys in H as [H _]. now apply H.
  - intros Hempty.
    destruct (Obj.keys _) as [|n ks]; [reflexivity |]. exfalso.
    destruct (proj1 (Hkeys n) (or_introl eq_refl))
      as [_ [pkg [line [Hpkg [_ [Hline _]]]]]].
    destruct Hempty as [-> | ->]; [destruct Hline | destruct Hpkg].
Qed.

(** X13. Whether or not the package names are unique, every file of every
    entry under a name is a changed file of a commit of the range and lies
    under the root of a package that carries that name. *)
Theorem entries_files_prefixed (w : World) (commits : list string)
  (packages : list Package) (n : string) (es : list CommitInfo)
  (c : CommitInfo) (file : string) :
  In (n, es) (Obj.entries (categorizeCommitsByPackage w commits packages)) ->
  In c es ->
  In file (files c) ->
  exists pkg commitLine,
    In pkg packages /\ name pkg = n /\ In commitLine commits
    /\ In file (changedFilesOf w commitLine)
    /\ beginsWith file (path pkg ++ "/").
Proof.
  intros Hentry Hc Hfile.
  destruct (entries_recorded w commits packages n es c Hentry Hc)
    as [pkg [line [Hpkg [Hn [Hline Hrec]]]]].
  destruct (recorded_files w pkg line c file Hrec Hfile) as [Hchanged Hprefix].
  exists pkg, line. now repeat split.
Qed.

Lemma entries_files_prefixed_witness :
  exists pkg commitLine,
    In pkg twinPackages /\ name pkg = "app"
    /\ In commitLine ["3f2a9c1 feat: add button"; "b7e41d08a5 fix!: null deref"]
    /\ In "packages/core/src/x.ts" (changedFilesOf scenarioWorld commitLine)
    /\ beginsWith "packages/core/src/x.ts" (path pkg ++ "/").
Proof.
  apply (entries_files_prefixed scenarioWorld
           ["3f2a9c1 feat: add button"; "b7e41d08a5 fix!: null deref"]
           twinPackages "app"
           [mkCommit "3f2a9c1" "feat: add button" ["packages/ui/src/Button.ts"];
            mkCommit "b7e41d08a5" "fix!: null deref" ["packages/core/src/x.ts"]]
           (mkCommit "b7e41d08a5" "fix!: null deref" ["packages/core/src/x.ts"])).
  - vm_compute. left. reflexivity.
  - right. left. reflexivity.
  - left. reflexivity.
Defined.

(** ** The target branch, further *)

Lemma firstVerified_In (w : World) (cs : list string) (c : string) :
  firstVerified w cs = Some c -> In c cs.
Proof.
  induction cs as [|a cs IH]; simpl; [discriminate |].
  destruct (execSync w _); [intros [= <-]; now left | intros H; right; auto].
Qed.

Lemma probeCandidates_In (w : World) : In (probeCandidates w) candidates.
Proof.
  unfold probeCandidates.
  destruct (firstVerified w candidates) as [c|] eqn:E.
  - exact (firstVerified_In _ _ _ E).
  - now left.
Qed.

(** X14. The target branch is never the empty string, so [git merge-base]
    always gets a reference; and when it is neither the override nor the
    trimmed answer of the upstream query, it is one of the four candidates. *)
Theorem resolveTarget_nonempty (w : World) (targetArg : option string)
  (sourceBranch : string) :
  resolveTarget w targetArg sourceBranch <> EmptyString
  /\ (orNull targetArg = Some (resolveTarget w targetArg sourceBranch)
      \/ (exists out,
            execSync w ("git rev-parse --abbrev-ref --symbolic-full-name "
                        ++ sourceBranch ++ "@{upstream}") = Some out
            /\ resolveTarget w targetArg sourceBranch = trim out)
      \/ In (resolveTarget w targetArg sourceBranch) candidates).
Proof.
  assert (forall c, In c candidates -> c <> EmptyString) as Hcand.
  { intros c [<- | [<- | [<- | [<- | []]]]]; discriminate. }
  unfold resolveTarget.
  destruct (orNull targetArg) as [t|] eqn:Et.
  - split; [| now left].
    destruct targetArg as [t'|]; [| discriminate]. cbn [orNull] in Et.
    destruct t'; [discriminate |]. cbn in Et. injection Et as <-. discriminate.
  - unfold getDefaultBaseRef.
    destruct (execSync w _) as [out|] eqn:Eq.
    + destruct (trim out) as [|a r] eqn:Etr; cbn [truthy].
      * split; [apply Hcand, probeCandidates_In |].
        right; right. apply probeCandidates_In.
      * split; [discriminate |]. right; left. now exists out.
    + split; [apply Hcand, probeCandidates_In |].
      right; right. apply probeCandidates_In.
Qed.

(** ** File names that collide *)

Lemma replaceFirst_absent (c : ascii) (rep s : string) :
  count c s = 0%nat -> replaceFirst c rep s = s.
Proof.
  induction s as [|a s IH]; simpl; [reflexivity |].
  destruct (Ascii.eqb a c); [discriminate |]. intros H. now rewrite IH.
Qed.

(** X15. The sanitisation is not injective: a scoped name [@a/b] and the
    plain name [a-b] are two names with one changeset file.  When the plain
    package is written after the scoped one, the file of the scoped package
    holds the changeset of the plain one. *)
Theorem safePackageName_collides (a b : string) :
  count "@" a = 0%nat -> count "/" a = 0%nat ->
  count "@" b = 0%nat -> count "/" b = 0%nat ->
  "@" ++ a ++ "/" ++ b <> a ++ "-" ++ b
  /\ safePackageName ("@" ++ a ++ "/" ++ b) = safePackageName (a ++ "-" ++ b)
  /\ (forall prNumber,
        changesetPath (changesetFilename prNumber ("@" ++ a ++ "/" ++ b))
        = changesetPath (changesetFilename prNumber (a ++ "-" ++ b)))
  /\ (forall w url prNumber earlier scoped plain fs,
        writable w (changesetPath
                      (changesetFilename prNumber ("@" ++ a ++ "/" ++ b))) = true ->
        fold_left (writeChangeset w url prNumber)
          (earlier ++ [("@" ++ a ++ "/" ++ b, scoped); (a ++ "-" ++ b, plain)])
          fs
        !! changesetPath (changesetFilename prNumber ("@" ++ a ++ "/" ++ b))
        = Some (generateChangeset (a ++ "-" ++ b) plain url)).
Proof.
  intros Ha1 Ha2 Hb1 Hb2.
  assert (count "@" (a ++ "-" ++ b) = 0%nat) as Hat
    by (rewrite !count_append; simpl; lia).
  assert (count "/" (a ++ "-" ++ b) = 0%nat) as Hsl
    by (rewrite !count_append; simpl; lia).
  assert (safePackageName ("@" ++ a ++ "/" ++ b)
          = safePackageName (a ++ "-" ++ b)) as Hsame.
  { change ("@" ++ a ++ "/" ++ b) with (EmptyString ++ "@" ++ a ++ "/" ++ b).
    rewrite safePackageName_scoped by (reflexivity || exact Ha2).
    rewrite append_nil. unfold safePackageName.
    now rewrite (replaceFirst_absent _ _ _ Hat), (replaceFirst_absent _ _ _ Hsl). }
  assert (forall prNumber,
            changesetPath (changesetFilename prNumber ("@" ++ a ++ "/" ++ b))
            = changesetPath (changesetFilename prNumber (a ++ "-" ++ b)))
    as Hpath.
  { intros prNumber. unfold changesetFilename. now rewrite Hsame. }
  split; [| split; [exact Hsame | split; [exact Hpath |]]].
  - intros E. assert (count "@" ("@" ++ a ++ "/" ++ b) = 0%nat) as H
      by now rewrite E.
    app_norm. simpl in H. discriminate.
  - intros w url prNumber earlier scoped plain fs Hw.
    rewrite written_lookup.
    assert (forall es,
              lastWritten w url prNumber
                (es ++ [(a ++ "-" ++ b, plain)])
                (changesetPath (changesetFilename prNumber (a ++ "-" ++ b)))
              = Some (generateChangeset (a ++ "-" ++ b) plain url)) as Hlast.
    { induction es as [|[k cs] es IH].
      - cbn [app lastWritten]. rewrite <- Hpath, Hw, String.eqb_refl.
        reflexivity.
      - rewrite <- app_comm_cons. cbn [lastWritten]. now rewrite IH. }
    rewrite Hpath.
    specialize (Hlast (earlier ++ [(("@" ++ a ++ "/" ++ b)%string, scoped)])%list).
    rewrite <- app_assoc in Hlast. cbn [app] in Hlast. now rewrite Hlast.
Qed.

Lemma safePackageName_collides_witness :
  safePackageName "@org/ui" = safePackageName "org-ui".
Proof.
  apply (safePackageName_collides "org" "ui"); reflexivity.
Defined.

(** ** The scan of the packages *)

Lemma getPackages_In (d : Registry.Disk) (pkg : Package) :
  In pkg (Registry.getPackages d) ->
  Registry.existsSync d Registry.packagesDir = true
  /\ In (directory pkg) (Registry.readdirSync d Registry.packagesDir)
  /\ Registry.existsSync d (Registry.packageJsonPath (directory pkg)) = true
  /\ pkg = mkPackage
             (Registry.manifestName d (Registry.packageJsonPath (directory pkg)))
             ("packages/" ++ directory pkg) (directory pkg).
Proof.
  unfold Registry.getPackages.
  destruct (Registry.existsSync d Registry.packagesDir); cbn [negb];
    [| intros []].
  rewrite in_map_iff. intros [dir [<- Hin]]. apply filter_In in Hin as [Hin He].
  cbn [directory]. now repeat split.
Qed.

Lemma slash_cut (a b x y : string) :
  count "/" a = 0%nat -> count "/" b = 0%nat ->
  a ++ String "/" x = b ++ String "/" y -> a = b.
Proof.
  revert b. induction a as [|c a IH]; intros [|e b]; app_norm; simpl;
    intros Ha Hb E.
  - reflexivity.
  - injection E as <- _. simpl in Hb. discriminate.
  - injection E as -> _. simpl in Ha. discriminate.
  - injection E as <- E.
    destruct (Ascii.eqb c "/"); [discriminate |].
    f_equal. now apply (IH b).
Qed.

(** X16. The packages found by the scan have disjoint subtrees: directory
    entries hold no slash, so a changed file lies under the root of at most
    one scanned package, and a directory whose name merely begins like
    another one (ui, uikit) never takes its files.  Each package found has
    the path [packages/<directory>], for a listed directory with a
    manifest. *)
Theorem scanned_subtrees_disjoint (d : Registry.Disk) (p q : Package)
  (file : string) :
  (forall dir, In dir (Registry.readdirSync d Registry.packagesDir) ->
               count "/" dir = 0%nat) ->
  In p (Registry.getPackages d) ->
  In q (Registry.getPackages d) ->
  inPackage p file = true ->
  inPackage q file = true ->
  p = q
  /\ path p = "packages/" ++ directory p
  /\ Registry.existsSync d (Registry.packageJsonPath (directory p)) = true.
Proof.
  intros Hdirs Hp Hq Hfp Hfq.
  destruct (getPackages_In d p Hp) as [_ [Hdp [Hmp Ep]]].
  destruct (getPackages_In d q Hq) as [_ [Hdq [_ Eq]]].
  assert (directory p = directory q) as Hdir.
  { unfold inPackage in Hfp, Hfq.
    apply startsWith_spec in Hfp as [r1 E1].
    apply startsWith_spec in Hfq as [r2 E2].
    rewrite Ep in E1. rewrite Eq in E2. cbn [path] in E1, E2.
    rewrite E1 in E2. rewrite !append_assoc in E2.
    app_norm. injection E2 as E2.
    exact (slash_cut _ _ _ _ (Hdirs _ Hdp) (Hdirs _ Hdq) E2). }
  split; [| split; [| exact Hmp]].
  - rewrite Ep, Eq, Hdir. reflexivity.
  - rewrite Ep. reflexivity.
Qed.

Lemma scanned_subtrees_disjoint_witness :
  mkPackage "@org/ui" "packages/ui" "ui" = mkPackage "@org/ui" "packages/ui" "ui"
  /\ Registry.getPackages scenarioDisk
     = [mkPackage "@org/ui" "packages/ui" "ui";
        mkPackage "@org/uikit" "packages/uikit" "uikit"]
  /\ inPackage (mkPackage "@org/ui" "packages/ui" "ui")
       "packages/uikit/notes.md" = false.
Proof.
  split; [| split; reflexivity].
  apply (scanned_subtrees_disjoint scenarioDisk
           (mkPackage "@org/ui" "packages/ui" "ui")
           (mkPackage "@org/ui" "packages/ui" "ui")
           "packages/ui/src/Button.ts").
  - intros dir Hdir. vm_compute in Hdir.
    destruct Hdir as [<- | [<- | [<- | []]]]; reflexivity.
  - vm_compute. left. reflexivity.
  - vm_compute. left. reflexivity.
  - reflexivity.
  - reflexivity.
Defined.
